(** * FBES self-assessment tool: scoring, recommendations and CRUD handlers

    A shallow embedding of [backend/main.py] and [backend/models.py].

    Modelling conventions.
    - The scoring code of [complete_assessment] is embedded twice.  In the
      module [Binary64] every number is an IEEE 754 binary64 float and every
      operation is the rounded one, as Python computes; what depends on the
      values of the scores (the formulas, the labels, ties between priority
      scores, bounds) is stated there.  Outside that module JSON numbers are
      exact rationals [Q], and Python's [==], [>] and [>=] on numbers are
      [Qeq], [Qlt] and [Qle]; this embedding carries the handlers and the
      properties in which rounding plays no part: which questions earn points
      and which are recommended, that two runs on related inputs agree, that
      nothing but zeros adds up to zero.
    - Python dicts keyed by strings are [gmap string _].
    - A stored response is a JSON object with optional string fields
      [answer] and [notes], as the data model of the service has it.
    - The catalog is an argument of the scoring code: it stands for
      [CATEGORIES_DATA["categories"]], loaded from [data/categories.json]
      at start-up ([CATEGORIES_DATA["scoring"]] is read but never used).
    - A handler is a function from the database state to a result (a value
      or a raised exception) and the database state after the request.  The
      state after a request holds what [db.commit()] writes: for the plain
      [JSON] column [responses] that is the assigned dict only if it is
      another object than the one loaded from the row.
    - [datetime.utcnow()] is an explicit argument [now]. *)

From Stdlib Require Import QArith Qround Qabs Lqa Lia ZArith List Permutation Sorted
  SpecFloat.
From stdpp Require Import gmap strings list fin_maps.

Local Open Scope Q_scope.
Local Open Scope string_scope.

(** ** Exceptions and results *)

Inductive exn : Type :=
| ZeroDivisionError
| HTTPException (status_code : Z) (detail : string).

Inductive result (A : Type) : Type :=
| Ok (a : A)
| Raise (e : exn).
Arguments Ok {A} a.
Arguments Raise {A} e.

#[global] Instance result_ret : MRet result := fun _ a => Ok a.

#[global] Instance result_bind : MBind result := fun _ _ k r =>
  match r with
  | Ok a => k a
  | Raise e => Raise e
  end.

(** A [for] loop whose body may raise: the state is threaded from left to
    right and the first exception aborts the loop. *)
Fixpoint for_each {A S : Type} (body : S -> A -> result S) (l : list A) (s : S)
  : result S :=
  match l with
  | [] => Ok s
  | x :: l' => s' ← body s x; for_each body l' s'
  end.

(** ** Numbers *)

(** Python's [a / b]: raises [ZeroDivisionError] when [b == 0]. *)
Definition py_div (a b : Q) : result Q :=
  if Qeq_bool b 0 then Raise ZeroDivisionError else Ok (a / b).

(** Nearest integer, ties to the even neighbour. *)
Definition round_half_even (x : Q) : Z :=
  let f := Qfloor x in
  match Qcompare (x - inject_Z f) (1 # 2) with
  | Lt => f
  | Gt => (f + 1)%Z
  | Eq => if Z.even f then f else (f + 1)%Z
  end.

(** Python's [round(x, ndigits)] for [ndigits >= 0]. *)
Definition py_round (x : Q) (ndigits : nat) : Q :=
  let p := inject_Z (10 ^ Z.of_nat ndigits) in
  inject_Z (round_half_even (x * p)) / p.

(** ** The static category catalog ([CATEGORIES_DATA["categories"]]) *)

Record Question : Type := {
  q_id : string;
  q_text : string;
  q_impact : option Q;          (* absent key: [question.get("impact", 1.0)] *)
  q_guidance : option string    (* absent key: the guidance is the empty string *)
}.

Record Category : Type := {
  c_id : string;                (* [str(category["id"])] *)
  c_name : string;
  c_weight : Q;
  c_questions : list Question
}.

(** ** Responses: category id -> question id -> {answer, notes} *)

Record ResponseEntry : Type := {
  r_answer : option string;
  r_notes : option string
}.

Definition empty_entry : ResponseEntry :=
  {| r_answer := None; r_notes := None |}.

Definition entry (a : string) : ResponseEntry :=
  {| r_answer := Some a; r_notes := None |}.

(** [responses.get(cat_id, {})] *)
Definition get_cat_responses (responses : gmap string (gmap string ResponseEntry))
    (cat_id : string) : gmap string ResponseEntry :=
  default ∅ (responses !! cat_id).

(** [cat_responses.get(q_id, {}).get("answer", "no")] *)
Definition get_answer (cat_responses : gmap string ResponseEntry) (q_id : string)
  : string :=
  default "no" (r_answer (default empty_entry (cat_responses !! q_id))).

(** [question.get("impact", 1.0)] *)
Definition impact_of (question : Question) : Q := default 1 (q_impact question).

(** ** Scoring (main.py, lines 285-324) *)

(** Body of the inner loop over [category["questions"]]; the state is
    [(max_score, actual_score)]. *)
Definition score_question (cat_responses : gmap string ResponseEntry)
    (st : Q * Q) (question : Question) : Q * Q :=
  let '(max_score, actual_score) := st in
  let impact := impact_of question in
  let max_score := max_score + 2 * impact in
  let answer := get_answer cat_responses (q_id question) in
  if decide (answer = "yes") then (max_score, actual_score + 2 * impact)
  else if decide (answer = "partial") then (max_score, actual_score + 1 * impact)
  else (max_score, actual_score).

Definition score_questions (cat_responses : gmap string ResponseEntry)
    (questions : list Question) : Q * Q :=
  fold_left (score_question cat_responses) questions (0, 0).

(** [(actual_score / max_score * 100) if max_score > 0 else 0] *)
Definition raw_pct_of (actual_score max_score : Q) : result Q :=
  if Qlt_le_dec 0 max_score
  then q ← py_div actual_score max_score; Ok (q * 100)
  else Ok 0.

(** ["strong" if raw_pct >= 75 else ("adequate" if raw_pct >= 50 else "weak")] *)
Definition status_of (raw_pct : Q) : string :=
  if Qle_bool 75 raw_pct then "strong"
  else if Qle_bool 50 raw_pct then "adequate"
  else "weak".

Record CategoryScore : Type := {
  cs_name : string;
  cs_raw_score : Q;
  cs_weighted_score : Q;
  cs_status : string
}.

Record ScoreState : Type := {
  category_scores : gmap string CategoryScore;
  total_weighted_score : Q;
  total_weight : Q
}.

Definition init_score_state : ScoreState :=
  {| category_scores := ∅; total_weighted_score := 0; total_weight := 0 |}.

(** Raw percentage of one category (the first half of the outer loop body). *)
Definition category_raw_pct (responses : gmap string (gmap string ResponseEntry))
    (category : Category) : result Q :=
  let cat_responses := get_cat_responses responses (c_id category) in
  let '(max_score, actual_score) :=
    score_questions cat_responses (c_questions category) in
  raw_pct_of actual_score max_score.

(** Body of the outer loop over [CATEGORIES_DATA["categories"]]. *)
Definition score_category (responses : gmap string (gmap string ResponseEntry))
    (st : ScoreState) (category : Category) : result ScoreState :=
  raw_pct ← category_raw_pct responses category;
  let weighted_score := raw_pct * c_weight category in
  Ok {| category_scores :=
          <[ c_id category :=
               {| cs_name := c_name category;
                  cs_raw_score := py_round raw_pct 1;
                  cs_weighted_score := py_round weighted_score 2;
                  cs_status := status_of raw_pct |} ]> (category_scores st);
        total_weighted_score := total_weighted_score st + weighted_score;
        total_weight := total_weight st + c_weight category |}.

(** [round(total_weighted_score / total_weight, 1) if total_weight > 0 else 0] *)
Definition overall_of (st : ScoreState) : result Q :=
  if Qlt_le_dec 0 (total_weight st)
  then q ← py_div (total_weighted_score st) (total_weight st); Ok (py_round q 1)
  else Ok 0.

(** ["ready" if overall_score >= 75 else ("promising" if ... >= 50 else "needs_work")] *)
Definition readiness_of (overall_score : Q) : string :=
  if Qle_bool 75 overall_score then "ready"
  else if Qle_bool 50 overall_score then "promising"
  else "needs_work".

(** ** Recommendations (main.py, lines 326-345) *)

Record Recommendation : Type := {
  rec_category : string;
  rec_question : string;
  rec_current_answer : string;
  rec_guidance : string;
  rec_impact : Q;
  rec_priority_score : Q
}.

(** The dict appended for a question whose answer is [answer]. *)
Definition make_recommendation (category : Category) (question : Question)
    (answer : string) : Recommendation :=
  {| rec_category := c_name category;
     rec_question := q_text question;
     rec_current_answer := answer;
     rec_guidance := default EmptyString (q_guidance question);
     rec_impact := impact_of question;
     rec_priority_score :=
       c_weight category * impact_of question
       * (if decide (answer = "no") then 2 else 1) |}.

(** Body of the inner recommendation loop; the state is the list
    [recommendations], extended by [append]. *)
Definition recommend_question (category : Category)
    (cat_responses : gmap string ResponseEntry)
    (recommendations : list Recommendation) (question : Question)
  : list Recommendation :=
  let answer := get_answer cat_responses (q_id question) in
  if decide (answer ∈ ["no"; "partial"])
  then recommendations ++ [make_recommendation category question answer]
  else recommendations.

(** Body of the outer recommendation loop. *)
Definition recommend_category (responses : gmap string (gmap string ResponseEntry))
    (recommendations : list Recommendation) (category : Category)
  : list Recommendation :=
  let cat_responses := get_cat_responses responses (c_id category) in
  fold_left (recommend_question category cat_responses)
            (c_questions category) recommendations.

Definition candidate_recommendations (catalog : list Category)
    (responses : gmap string (gmap string ResponseEntry)) : list Recommendation :=
  fold_left (recommend_category responses) catalog [].

(** [list.sort(key=..., reverse=True)]: a stable sort into non-increasing key
    order.  An element is placed after every element whose key is strictly
    larger and before every other one, so equal keys keep their input order. *)
Fixpoint insert_desc {A : Type} (key : A -> Q) (x : A) (l : list A) : list A :=
  match l with
  | [] => [x]
  | y :: l' =>
      if Qlt_le_dec (key x) (key y) then y :: insert_desc key x l'
      else x :: y :: l'
  end.

Definition sort_reverse {A : Type} (key : A -> Q) (l : list A) : list A :=
  fold_right (insert_desc key) [] l.

(** ** The pure part of [complete_assessment] *)

Record CompleteResult : Type := {
  res_overall_score : Q;
  res_category_scores : gmap string CategoryScore;
  res_recommendations : list Recommendation;
  res_readiness : string
}.

Definition compute_scores (catalog : list Category)
    (responses : gmap string (gmap string ResponseEntry)) : result CompleteResult :=
  st ← for_each (score_category responses) catalog init_score_state;
  overall_score ← overall_of st;
  let recommendations := candidate_recommendations catalog responses in
  let recommendations := sort_reverse rec_priority_score recommendations in
  let top_recommendations := take 10 recommendations in
  Ok {| res_overall_score := overall_score;
        res_category_scores := category_scores st;
        res_recommendations := top_recommendations;
        res_readiness := readiness_of overall_score |}.

(** ** The relational store (models.py) *)

Record User : Type := {
  u_id : Z;
  u_email : string;
  u_hashed_password : string;
  u_organization : option string;
  u_name : option string;
  u_created_at : Z;
  u_last_login : option Z
}.

Record Assessment : Type := {
  a_id : Z;
  a_user_id : Z;
  a_program_name : string;
  a_organization : option string;
  a_program_level : string;
  a_target_audience : list string;
  a_delivery_format : list string;
  a_program_duration : option string;
  a_assessor_role : option string;
  a_status : string;
  a_current_category : Z;
  a_responses : option (gmap string (gmap string ResponseEntry));
  a_overall_score : option Q;
  a_category_scores : option (gmap string CategoryScore);
  a_recommendations : option (list Recommendation);
  a_created_at : Z;
  a_updated_at : Z;
  a_completed_at : option Z
}.

Record AnalyticsEvent : Type := {
  e_id : Z;
  e_event_type : string;
  e_user_id : option Z;
  e_assessment_id : option Z;
  e_event_data : option Q;      (* [{"overall_score": ...}] *)
  e_created_at : Z
}.

Record Db : Type := {
  users : list User;
  assessments : list Assessment;
  analytics_events : list AnalyticsEvent
}.

(** Autoincrement primary key: one more than the largest key in the table. *)
Definition next_id {A : Type} (id : A -> Z) (table : list A) : Z :=
  (fold_right Z.max 0 (map id table) + 1)%Z.

(** [db.query(User).filter(User.email == email).first()] *)
Definition query_user_by_email (db : Db) (email : string) : option User :=
  find (fun u => bool_decide (u_email u = email)) (users db).

(** [db.query(Assessment).filter(Assessment.id == assessment_id,
                                 Assessment.user_id == user.id).first()] *)
Definition owned_by (assessment_id user_id : Z) (a : Assessment) : bool :=
  bool_decide (a_id a = assessment_id) && bool_decide (a_user_id a = user_id).

Definition query_assessment (db : Db) (assessment_id user_id : Z)
  : option Assessment :=
  find (owned_by assessment_id user_id) (assessments db).

(** Writing a modified row back on [db.commit()]: the first row selected by
    [p] (the one [first()] returned) is replaced. *)
Fixpoint update_first {A : Type} (p : A -> bool) (f : A -> A) (l : list A)
  : list A :=
  match l with
  | [] => []
  | x :: l' => if p x then f x :: l' else x :: update_first p f l'
  end.

Definition add_event (ev_type : string) (uid : option Z) (aid : option Z)
    (data : option Q) (now : Z) (db : Db) : Db :=
  {| users := users db;
     assessments := assessments db;
     analytics_events :=
       analytics_events db ++
       [ {| e_id := next_id e_id (analytics_events db);
            e_event_type := ev_type;
            e_user_id := uid;
            e_assessment_id := aid;
            e_event_data := data;
            e_created_at := now |} ] |}.

Definition not_found {A : Type} : result A :=
  Raise (HTTPException 404 "Assessment not found").

(** ** Authentication endpoints (main.py, lines 102-182) *)

Record UserCreate : Type := {
  uc_email : string;
  uc_password : string;
  uc_name : option string;
  uc_organization : option string
}.

Record Token : Type := { tok_sub : Z; tok_exp : Z }.

Definition ACCESS_TOKEN_EXPIRE_DAYS : Z := 30.

(** The claims of the JSON web token; [now] and [exp] are in seconds. *)
Definition create_access_token (sub : Z) (now : Z) : Token :=
  {| tok_sub := sub; tok_exp := (now + ACCESS_TOKEN_EXPIRE_DAYS * 86400)%Z |}.

Record AuthResponse : Type := {
  ar_message : string;
  ar_token : Token;
  ar_email : string;
  ar_name : option string
}.

(** [require_auth]: anonymous callers are rejected. *)
Definition require_auth (user : option User) : result User :=
  match user with
  | Some u => Ok u
  | None => Raise (HTTPException 401 "Not authenticated")
  end.

Section Auth.

(** [pwd_context.hash]: the hexadecimal SHA-256 digest of the password. *)
Variable pwd_hash : string -> string.

Definition register (user_data : UserCreate) (now : Z) (db : Db)
  : result AuthResponse * Db :=
  match query_user_by_email db (uc_email user_data) with
  | Some _ => (Raise (HTTPException 400 "Email already registered"), db)
  | None =>
      let user :=
        {| u_id := next_id u_id (users db);
           u_email := uc_email user_data;
           u_hashed_password := pwd_hash (uc_password user_data);
           u_organization := uc_organization user_data;
           u_name := uc_name user_data;
           u_created_at := now;
           u_last_login := None |} in
      let db1 :=
        {| users := users db ++ [user];
           assessments := assessments db;
           analytics_events := analytics_events db |} in
      let db2 := add_event "user_registered" (Some (u_id user)) None None now db1 in
      (Ok {| ar_message := "Registration successful";
             ar_token := create_access_token (u_id user) now;
             ar_email := u_email user;
             ar_name := u_name user |}, db2)
  end.

Definition set_last_login (now : Z) (u : User) : User :=
  {| u_id := u_id u; u_email := u_email u;
     u_hashed_password := u_hashed_password u;
     u_organization := u_organization u; u_name := u_name u;
     u_created_at := u_created_at u; u_last_login := Some now |}.

Definition login (email password : string) (now : Z) (db : Db)
  : result AuthResponse * Db :=
  match query_user_by_email db email with
  | Some user =>
      if bool_decide (pwd_hash password = u_hashed_password user) then
        let db1 :=
          {| users := update_first (fun u => bool_decide (u_email u = email))
                                   (set_last_login now) (users db);
             assessments := assessments db;
             analytics_events := analytics_events db |} in
        let db2 := add_event "user_login" (Some (u_id user)) None None now db1 in
        (Ok {| ar_message := "Login successful";
               ar_token := create_access_token (u_id user) now;
               ar_email := u_email user;
               ar_name := u_name user |}, db2)
      else (Raise (HTTPException 401 "Invalid credentials"), db)
  | None => (Raise (HTTPException 401 "Invalid credentials"), db)
  end.

End Auth.

(** ** Assessment endpoints (main.py, lines 201-370) *)

Record ProgramInfo : Type := {
  pi_program_name : string;
  pi_organization : option string;
  pi_program_level : string;
  pi_target_audience : list string;
  pi_delivery_format : list string;
  pi_program_duration : option string;
  pi_assessor_role : option string
}.

Definition create_assessment (program_info : ProgramInfo) (user : User)
    (now : Z) (db : Db) : result Z * Db :=
  let assessment :=
    {| a_id := next_id a_id (assessments db);
       a_user_id := u_id user;
       a_program_name := pi_program_name program_info;
       a_organization := pi_organization program_info;
       a_program_level := pi_program_level program_info;
       a_target_audience := pi_target_audience program_info;
       a_delivery_format := pi_delivery_format program_info;
       a_program_duration := pi_program_duration program_info;
       a_assessor_role := pi_assessor_role program_info;
       a_status := "in_progress";
       a_current_category := 1;
       a_responses := Some ∅;
       a_overall_score := None;
       a_category_scores := None;
       a_recommendations := None;
       a_created_at := now;
       a_updated_at := now;
       a_completed_at := None |} in
  let db1 :=
    {| users := users db;
       assessments := assessments db ++ [assessment];
       analytics_events := analytics_events db |} in
  (Ok (a_id assessment),
   add_event "assessment_started" (Some (u_id user)) (Some (a_id assessment))
             None now db1).

(** The response body of [get_assessment] is a projection of the row; the
    row itself stands for it. *)
Definition get_assessment (assessment_id : Z) (user : User) (db : Db)
  : result Assessment * Db :=
  match query_assessment db assessment_id (u_id user) with
  | None => (not_found, db)
  | Some assessment => (Ok assessment, db)
  end.

(** [assessment.responses = current; assessment.updated_at = utcnow()] *)
Definition set_responses (current : gmap string (gmap string ResponseEntry))
    (now : Z) (a : Assessment) : Assessment :=
  {| a_id := a_id a; a_user_id := a_user_id a;
     a_program_name := a_program_name a; a_organization := a_organization a;
     a_program_level := a_program_level a;
     a_target_audience := a_target_audience a;
     a_delivery_format := a_delivery_format a;
     a_program_duration := a_program_duration a;
     a_assessor_role := a_assessor_role a;
     a_status := a_status a; a_current_category := a_current_category a;
     a_responses := Some current;
     a_overall_score := a_overall_score a;
     a_category_scores := a_category_scores a;
     a_recommendations := a_recommendations a;
     a_created_at := a_created_at a;
     a_updated_at := now;
     a_completed_at := a_completed_at a |}.

(** [current = assessment.responses or {}; current.update(responses)]:
    [dict.update] overwrites the value stored under each submitted key, and the
    keys of [responses] are category ids. *)
Definition merge_responses
    (stored : option (gmap string (gmap string ResponseEntry)))
    (responses : gmap string (gmap string ResponseEntry))
  : gmap string (gmap string ResponseEntry) :=
  let current := default ∅ stored in
  responses ∪ current.

(** Python truthiness of the stored [responses] column: neither [None] nor
    the empty dict. *)
Definition truthy_responses
    (stored : option (gmap string (gmap string ResponseEntry))) : bool :=
  match stored with
  | Some m => negb (bool_decide (m = ∅))
  | None => false
  end.

(** [assessment.updated_at = utcnow()] alone. *)
Definition set_updated_at (now : Z) (a : Assessment) : Assessment :=
  {| a_id := a_id a; a_user_id := a_user_id a;
     a_program_name := a_program_name a; a_organization := a_organization a;
     a_program_level := a_program_level a;
     a_target_audience := a_target_audience a;
     a_delivery_format := a_delivery_format a;
     a_program_duration := a_program_duration a;
     a_assessor_role := a_assessor_role a;
     a_status := a_status a; a_current_category := a_current_category a;
     a_responses := a_responses a;
     a_overall_score := a_overall_score a;
     a_category_scores := a_category_scores a;
     a_recommendations := a_recommendations a;
     a_created_at := a_created_at a;
     a_updated_at := now;
     a_completed_at := a_completed_at a |}.

(** What [db.commit()] writes for lines 271-274.  [responses] is a plain
    [JSON] column (models.py, line 46): its value is written only when the
    object assigned to the attribute differs from the one loaded from the row.
    - When the stored map is truthy, [assessment.responses or {}] is the
      loaded dict itself; [current.update] changes that object in place and
      [assessment.responses = current] assigns the attribute the object it
      already holds, so no change of [responses] is seen and only
      [updated_at] is written.
    - When the stored value is [None] or [{}], [current] is a new dict; the
      assignment is seen and the merged map is written. *)
Definition save_responses
    (stored : option (gmap string (gmap string ResponseEntry)))
    (responses : gmap string (gmap string ResponseEntry)) (now : Z)
  : Assessment -> Assessment :=
  if truthy_responses stored then set_updated_at now
  else set_responses (merge_responses stored responses) now.

Definition update_responses (assessment_id : Z)
    (responses : gmap string (gmap string ResponseEntry))
    (user : User) (now : Z) (db : Db) : result string * Db :=
  match query_assessment db assessment_id (u_id user) with
  | None => (not_found, db)
  | Some assessment =>
      (Ok "Responses saved",
       {| users := users db;
          assessments :=
            update_first (owned_by assessment_id (u_id user))
                         (save_responses (a_responses assessment) responses now)
                         (assessments db);
          analytics_events := analytics_events db |})
  end.

(** The writes of [complete_assessment]; [updated_at] follows its
    [onupdate] default. *)
Definition set_completed (r : CompleteResult) (now : Z) (a : Assessment)
  : Assessment :=
  {| a_id := a_id a; a_user_id := a_user_id a;
     a_program_name := a_program_name a; a_organization := a_organization a;
     a_program_level := a_program_level a;
     a_target_audience := a_target_audience a;
     a_delivery_format := a_delivery_format a;
     a_program_duration := a_program_duration a;
     a_assessor_role := a_assessor_role a;
     a_status := "completed"; a_current_category := a_current_category a;
     a_responses := a_responses a;
     a_overall_score := Some (res_overall_score r);
     a_category_scores := Some (res_category_scores r);
     a_recommendations := Some (res_recommendations r);
     a_created_at := a_created_at a;
     a_updated_at := now;
     a_completed_at := Some now |}.

Definition complete_assessment (catalog : list Category) (assessment_id : Z)
    (user : User) (now : Z) (db : Db) : result CompleteResult * Db :=
  match query_assessment db assessment_id (u_id user) with
  | None => (not_found, db)
  | Some assessment =>
      let responses := default ∅ (a_responses assessment) in
      match compute_scores catalog responses with
      | Raise e => (Raise e, db)
      | Ok r =>
          let db1 :=
            {| users := users db;
               assessments :=
                 update_first (owned_by assessment_id (u_id user))
                              (set_completed r now) (assessments db);
               analytics_events := analytics_events db |} in
          (Ok r,
           add_event "assessment_completed" (Some (u_id user))
                     (Some (a_id assessment)) (Some (res_overall_score r))
                     now db1)
      end
  end.

(** ** The scoring rules in the words of the specification

    These definitions follow the prose of the specification (sums over the
    questions and categories) and are compared below with the loops of
    [complete_assessment]. *)

(** The answer stored for a question, [None] when it is unanswered. *)
Definition stored_answer (responses : gmap string (gmap string ResponseEntry))
    (cat_id q_id : string) : option string :=
  cat_responses ← responses !! cat_id;
  e ← cat_responses !! q_id;
  r_answer e.

Definition Qsum (l : list Q) : Q := fold_right Qplus 0 l.

(** Maximum attainable points of a question: 2 x impact. *)
Definition max_points (question : Question) : Q := 2 * impact_of question.

(** Attained points: 2 x impact for "yes", 1 x impact for "partial", 0 for
    "no" or a missing answer. *)
Definition attained_points (answer : option string) (question : Question) : Q :=
  match answer with
  | Some a =>
      if decide (a = "yes") then 2 * impact_of question
      else if decide (a = "partial") then 1 * impact_of question
      else 0
  | None => 0
  end.

Definition category_maximum (category : Category) : Q :=
  Qsum (map max_points (c_questions category)).

Definition category_attained (responses : gmap string (gmap string ResponseEntry))
    (category : Category) : Q :=
  Qsum (map (fun q => attained_points
                        (stored_answer responses (c_id category) (q_id q)) q)
            (c_questions category)).

(** Raw percentage as the specification words it: attained / maximum x 100,
    and 0 when the maximum is 0. *)
Definition stated_raw_pct (responses : gmap string (gmap string ResponseEntry))
    (category : Category) : Q :=
  if Qeq_bool (category_maximum category) 0 then 0
  else category_attained responses category / category_maximum category * 100.

(** Raw percentage with the guard of the code: 0 when the maximum is not
    positive. *)
Definition guarded_raw_pct (responses : gmap string (gmap string ResponseEntry))
    (category : Category) : Q :=
  if Qlt_le_dec 0 (category_maximum category)
  then category_attained responses category / category_maximum category * 100
  else 0.

Definition total_catalog_weight (catalog : list Category) : Q :=
  Qsum (map c_weight catalog).

Definition weighted_sum (raw : Category -> Q) (catalog : list Category) : Q :=
  Qsum (map (fun c => raw c * c_weight c) catalog).

(** Overall score as the specification words it: 0 when the total weight is 0. *)
Definition stated_overall (catalog : list Category)
    (responses : gmap string (gmap string ResponseEntry)) : Q :=
  if Qeq_bool (total_catalog_weight catalog) 0 then 0
  else py_round (weighted_sum (stated_raw_pct responses) catalog
                 / total_catalog_weight catalog) 1.

(** Overall score with the guard of the code: 0 when the total weight is not
    positive. *)
Definition guarded_overall (catalog : list Category)
    (responses : gmap string (gmap string ResponseEntry)) : Q :=
  if Qlt_le_dec 0 (total_catalog_weight catalog)
  then py_round (weighted_sum (guarded_raw_pct responses) catalog
                 / total_catalog_weight catalog) 1
  else 0.

(** "strong" iff raw >= 75, "adequate" iff 50 <= raw < 75, else "weak". *)
Definition status_rule (raw : Q) (status : string) : Prop :=
  (status = "strong" <-> 75 <= raw)
  /\ (status = "adequate" <-> 50 <= raw /\ raw < 75)
  /\ (status = "weak" <-> raw < 50).

(** ** Example data *)

Definition question (id text : string) (impact : option Q) : Question :=
  {| q_id := id; q_text := text; q_impact := impact; q_guidance := None |}.

(** The worked example of the specification: one category of weight 1 with
    two questions of impact 1, answered "yes" and "partial". *)
Definition example_catalog : list Category :=
  [ {| c_id := "1"; c_name := "Governance"; c_weight := 1;
       c_questions := [question "q1" "Is there a charter?" (Some 1);
                       question "q2" "Is there a budget?" None] |} ].

Definition example_responses : gmap string (gmap string ResponseEntry) :=
  {[ "1" := {[ "q1" := entry "yes"; "q2" := entry "partial" ]} ]}.

(** All questions answered "yes" in category "1". *)
Definition yes_responses : gmap string (gmap string ResponseEntry) :=
  {[ "1" := {[ "q1" := entry "yes" ]} ]}.

(** ** The recommendation rules in the words of the specification *)

(** The answer of a question, a missing one treated as "no". *)
Definition effective_answer (responses : gmap string (gmap string ResponseEntry))
    (category : Category) (question : Question) : string :=
  default "no" (stored_answer responses (c_id category) (q_id question)).

(** Priority score = category weight x impact x (2 if the answer is "no"
    else 1). *)
Definition stated_priority (category : Category) (question : Question)
    (answer : string) : Q :=
  c_weight category * impact_of question * (if String.eqb answer "no" then 2 else 1).

Definition stated_candidate (category : Category) (question : Question)
    (answer : string) : Recommendation :=
  {| rec_category := c_name category;
     rec_question := q_text question;
     rec_current_answer := answer;
     rec_guidance := default EmptyString (q_guidance question);
     rec_impact := impact_of question;
     rec_priority_score := stated_priority category question answer |}.

(** The candidates of one category, in question order: one for each question
    answered "no" or "partial". *)
Definition category_candidates (responses : gmap string (gmap string ResponseEntry))
    (category : Category) : list Recommendation :=
  flat_map (fun q =>
              let a := effective_answer responses category q in
              if String.eqb a "no" || String.eqb a "partial"
              then [stated_candidate category q a] else [])
           (c_questions category).

(** All candidates in encounter order: category order, then question order. *)
Definition stated_candidates (catalog : list Category)
    (responses : gmap string (gmap string ResponseEntry)) : list Recommendation :=
  flat_map (category_candidates responses) catalog.

(** Non-increasing key order. *)
Definition sorted_desc {A : Type} (key : A -> Q) (l : list A) : Prop :=
  StronglySorted (fun a b => key b <= key a) l.

(** ** The catalog invariant: weights and impacts are non-negative *)

Definition nonneg_question (q : Question) : bool := Qle_bool 0 (impact_of q).

Definition nonneg_category (c : Category) : bool :=
  Qle_bool 0 (c_weight c) && forallb nonneg_question (c_questions c).

Definition nonneg_catalog (catalog : list Category) : bool :=
  forallb nonneg_category catalog.

(** Every question of every category of the catalog has an (effective)
    answer satisfying [P]. *)
Definition every_answer (P : string -> Prop) (catalog : list Category)
    (responses : gmap string (gmap string ResponseEntry)) : Prop :=
  Forall (fun c => Forall (fun q => P (effective_answer responses c q))
                          (c_questions c)) catalog.


(** Both questions of [example_catalog] answered "yes". *)
Definition all_yes_responses : gmap string (gmap string ResponseEntry) :=
  {[ "1" := {[ "q1" := entry "yes"; "q2" := entry "yes" ]} ]}.

Definition two_category_catalog : list Category :=
  [ {| c_id := "1"; c_name := "Governance"; c_weight := 1;
       c_questions := [question "q1" "Is there a charter?" (Some 1);
                       question "q2" "Is there a budget?" None] |};
    {| c_id := "2"; c_name := "Curriculum"; c_weight := 2;
       c_questions := [question "q1" "Is there a syllabus?" (Some (1 # 2));
                       question "q2" "Are outcomes stated?" (Some 1);
                       question "q3" "Is there an exam?" (Some 3)] |} ].

(** "q1" of category "1" answered "no", "q2" stored without an answer, and
    nothing stored for category "2". *)
Definition no_responses : gmap string (gmap string ResponseEntry) :=
  {[ "1" := {[ "q1" := entry "no"; "q2" := empty_entry ]} ]}.

(** An answer that is none of "yes", "partial", "no" for "q1" of category
    "1", and the same map with that question unanswered. *)
Definition maybe_responses : gmap string (gmap string ResponseEntry) :=
  {[ "1" := {[ "q1" := entry "maybe"; "q2" := entry "yes" ]} ]}.

Definition unanswered_responses : gmap string (gmap string ResponseEntry) :=
  {[ "1" := {[ "q2" := entry "yes" ]} ]}.

(** ** Ownership of assessments *)

(** An assessment with this id exists and belongs to the user. *)
Definition owned_assessment (db : Db) (assessment_id : Z) (user : User) : Prop :=
  exists a, a ∈ assessments db /\ a_id a = assessment_id /\ a_user_id a = u_id user.

(** One of the three assessment operations succeeds. *)
Definition some_succeeds (catalog : list Category) (db : Db) (user : User)
    (assessment_id : Z) (submitted : gmap string (gmap string ResponseEntry))
    (now : Z) : Prop :=
  (exists a db', get_assessment assessment_id user db = (Ok a, db'))
  \/ (exists m db', update_responses assessment_id submitted user now db = (Ok m, db'))
  \/ (exists r db', complete_assessment catalog assessment_id user now db = (Ok r, db')).

(** Each of the three assessment operations answers 404 and leaves the store
    as it was. *)
Definition all_not_found (catalog : list Category) (db : Db) (user : User)
    (assessment_id : Z) (submitted : gmap string (gmap string ResponseEntry))
    (now : Z) : Prop :=
  get_assessment assessment_id user db
    = (Raise (HTTPException 404 "Assessment not found"), db)
  /\ update_responses assessment_id submitted user now db
    = (Raise (HTTPException 404 "Assessment not found"), db)
  /\ complete_assessment catalog assessment_id user now db
    = (Raise (HTTPException 404 "Assessment not found"), db).

(** ** Example store *)

Definition empty_db : Db :=
  {| users := []; assessments := []; analytics_events := [] |}.

(** A stand-in for the SHA-256 digest in the examples. *)
Definition example_hash (password : string) : string := "sha256:" +:+ password.

Definition alice_data : UserCreate :=
  {| uc_email := "alice@example.org"; uc_password := "correct horse";
     uc_name := Some "Alice"; uc_organization := None |}.

Definition bob_data : UserCreate :=
  {| uc_email := "bob@example.org"; uc_password := "battery staple";
     uc_name := Some "Bob"; uc_organization := None |}.

Definition alice : User :=
  {| u_id := 1; u_email := "alice@example.org";
     u_hashed_password := example_hash "correct horse";
     u_organization := None; u_name := Some "Alice";
     u_created_at := 100; u_last_login := None |}.

Definition bob : User :=
  {| u_id := 2; u_email := "bob@example.org";
     u_hashed_password := example_hash "battery staple";
     u_organization := None; u_name := Some "Bob";
     u_created_at := 200; u_last_login := None |}.

Definition example_program : ProgramInfo :=
  {| pi_program_name := "Foundations"; pi_organization := None;
     pi_program_level := "introductory"; pi_target_audience := ["students"];
     pi_delivery_format := ["online"]; pi_program_duration := None;
     pi_assessor_role := None |}.

(** Alice and Bob register, then Alice starts assessment 1. *)
Definition two_user_db : Db :=
  let db1 := snd (register example_hash alice_data 100 empty_db) in
  let db2 := snd (register example_hash bob_data 200 db1) in
  snd (create_assessment example_program alice 300 db2).

(** Alice answers both questions of category "1". *)
Definition answered_db : Db :=
  snd (update_responses 1 example_responses alice 400 two_user_db).

(** A later submission that carries only "q1" of category "1". *)
Definition q1_only_update : gmap string (gmap string ResponseEntry) :=
  {[ "1" := {[ "q1" := entry "no" ]} ]}.

(** ** Results kept on the assessment row *)

Definition stored_results (a : Assessment)
  : option Q * option (gmap string CategoryScore) * option (list Recommendation) :=
  (a_overall_score a, a_category_scores a, a_recommendations a).

Definition results_of (r : CompleteResult)
  : option Q * option (gmap string CategoryScore) * option (list Recommendation) :=
  (Some (res_overall_score r), Some (res_category_scores r),
   Some (res_recommendations r)).

(** Alice completes assessment 1 of [answered_db]. *)
Definition first_completion : result CompleteResult * Db :=
  complete_assessment example_catalog 1 alice 700 answered_db.

Definition example_result : CompleteResult :=
  match fst first_completion with
  | Ok r => r
  | Raise _ =>
      {| res_overall_score := 0; res_category_scores := ∅;
         res_recommendations := []; res_readiness := "needs_work" |}
  end.

(** A category of twelve questions "q1" ... "q12", of impacts 1 ... 12. *)
Definition twelve_question_catalog : list Category :=
  [ {| c_id := "1"; c_name := "Governance"; c_weight := 1;
       c_questions :=
         map (fun '(n, i) => question ("q" +:+ n) ("Question " +:+ n)
                                     (Some (inject_Z i)))
             [("1", 1%Z); ("2", 2%Z); ("3", 3%Z); ("4", 4%Z); ("5", 5%Z);
              ("6", 6%Z); ("7", 7%Z); ("8", 8%Z); ("9", 9%Z); ("10", 10%Z);
              ("11", 11%Z); ("12", 12%Z)] |} ].

(** ** Identity resolution (main.py, lines 109-136 and 189-191) *)

(** [s[n:]] *)
Fixpoint string_drop (n : nat) (s : string) : string :=
  match n, s with
  | O, _ => s
  | S n', String _ s' => string_drop n' s'
  | S _, EmptyString => EmptyString
  end.

(** Python truthiness of an [Optional[str]]: neither [None] nor empty. *)
Definition truthy (s : option string) : bool :=
  match s with
  | Some (String _ _) => true
  | _ => false
  end.

(** [db.query(User).filter(User.id == user_id).first()] *)
Definition query_user_by_id (db : Db) (user_id : Z) : option User :=
  find (fun u => bool_decide (u_id u = user_id)) (users db).

Section Identity.

(** [jwt.decode(auth_token, SECRET_KEY, algorithms=[ALGORITHM])] at time
    [now], followed by [payload.get("sub")]: [None] stands for a [JWTError]
    (malformed, wrongly signed or expired token), [Some None] for a payload
    without the key "sub". *)
Variable jwt_decode : string -> Z -> option (option Z).

(** The token the request is resolved from: the rest of a "Bearer " header
    first, then the cookie. *)
Definition auth_token_of (authorization token : option string) : option string :=
  if truthy authorization && String.prefix "Bearer " (default EmptyString authorization)
  then Some (string_drop 7 (default EmptyString authorization))
  else if truthy token then token
  else None.

Definition get_current_user (authorization token : option string) (now : Z)
    (db : Db) : option User :=
  let auth_token := auth_token_of authorization token in
  if negb (truthy auth_token) then None
  else
    match jwt_decode (default EmptyString auth_token) now with
    | Some payload_sub =>
        match payload_sub with
        | None => None
        | Some user_id => query_user_by_id db user_id
        end
    | None => None
    end.

(** An endpoint declared with [user: User = Depends(require_auth)]. *)
Definition with_auth {A : Type} (handler : User -> Db -> result A * Db)
    (authorization token : option string) (now : Z) (db : Db) : result A * Db :=
  match require_auth (get_current_user authorization token now db) with
  | Ok user => handler user db
  | Raise e => (Raise e, db)
  end.

End Identity.

(** ** Listing (main.py, lines 225-239) *)

Record AssessmentSummary : Type := {
  s_id : Z;
  s_program_name : string;
  s_status : string;
  s_overall_score : option Q;
  s_created_at : Z;
  s_updated_at : Z;
  s_completed_at : option Z
}.

Definition summary_of (a : Assessment) : AssessmentSummary :=
  {| s_id := a_id a;
     s_program_name := a_program_name a;
     s_status := a_status a;
     s_overall_score := a_overall_score a;
     s_created_at := a_created_at a;
     s_updated_at := a_updated_at a;
     s_completed_at := a_completed_at a |}.

(** [filter(Assessment.user_id == user.id).order_by(Assessment.updated_at.desc())]:
    the rows of the user by non-increasing [updated_at].  The order among rows
    of equal [updated_at] is the store's choice; here they keep table order. *)
Definition list_assessments (user : User) (db : Db) : list AssessmentSummary :=
  map summary_of
      (sort_reverse (fun a => inject_Z (a_updated_at a))
         (List.filter (fun a => bool_decide (a_user_id a = u_id user))
                      (assessments db))).

(** ** Analytics summary (main.py, lines 374-390) *)

Record AnalyticsSummary : Type := {
  as_total_users : Z;
  as_total_assessments : Z;
  as_completed_assessments : Z;
  as_completion_rate : Q;
  as_average_score : Q
}.

(** [Assessment.status == "completed"] *)
Definition is_completed (a : Assessment) : bool :=
  bool_decide (a_status a = "completed").

(** [sum(a.overall_score or 0 for a in completed)] *)
Definition sum_scores (completed : list Assessment) : Q :=
  fold_left (fun acc a => acc + default 0 (a_overall_score a)) completed 0.

Definition get_analytics_summary (db : Db) : result AnalyticsSummary :=
  let total_users := Z.of_nat (length (users db)) in
  let total_assessments := Z.of_nat (length (assessments db)) in
  let completed_assessments :=
    Z.of_nat (length (List.filter is_completed (assessments db))) in
  let completed := List.filter is_completed (assessments db) in
  avg_score ← (match completed with
               | [] => Ok 0
               | _ :: _ => py_div (sum_scores completed)
                                  (inject_Z (Z.of_nat (length completed)))
               end);
  completion_rate ← (if (0 <? total_assessments)%Z
                     then q ← py_div (inject_Z completed_assessments)
                                     (inject_Z total_assessments);
                          Ok (py_round (q * 100) 1)
                     else Ok 0);
  Ok {| as_total_users := total_users;
        as_total_assessments := total_assessments;
        as_completed_assessments := completed_assessments;
        as_completion_rate := completion_rate;
        as_average_score := py_round avg_score 1 |}.

(** ** Requests and reachable stores *)

(** The state-changing requests of the service, with the authenticated caller
    where the endpoint requires one. *)
Inductive Request : Type :=
| ReqRegister (user_data : UserCreate)
| ReqLogin (email password : string)
| ReqCreate (program_info : ProgramInfo) (user : User)
| ReqUpdate (assessment_id : Z)
            (responses : gmap string (gmap string ResponseEntry)) (user : User)
| ReqComplete (assessment_id : Z) (user : User).

(** The store after serving one request at time [now]. *)
Definition handle (pwd_hash : string -> string) (catalog : list Category)
    (req : Request) (now : Z) (db : Db) : Db :=
  match req with
  | ReqRegister user_data => snd (register pwd_hash user_data now db)
  | ReqLogin email password => snd (login pwd_hash email password now db)
  | ReqCreate program_info user => snd (create_assessment program_info user now db)
  | ReqUpdate assessment_id responses user =>
      snd (update_responses assessment_id responses user now db)
  | ReqComplete assessment_id user =>
      snd (complete_assessment catalog assessment_id user now db)
  end.

(** The store after serving a sequence of timed requests. *)
Definition run (pwd_hash : string -> string) (catalog : list Category)
    (reqs : list (Request * Z)) (db : Db) : Db :=
  fold_left (fun db rn => handle pwd_hash catalog (fst rn) (snd rn) db) reqs db.

(** Results are on the row exactly when its status is "completed". *)
Definition results_consistent (a : Assessment) : Prop :=
  (a_status a = "completed"
   /\ is_Some (a_overall_score a) /\ is_Some (a_category_scores a)
   /\ is_Some (a_recommendations a) /\ is_Some (a_completed_at a))
  \/ (a_status a = "in_progress"
      /\ a_overall_score a = None /\ a_category_scores a = None
      /\ a_recommendations a = None /\ a_completed_at a = None).

(** A stored overall score is within [0, 100]. *)
Definition score_in_range (a : Assessment) : Prop :=
  forall s, a_overall_score a = Some s -> 0 <= s <= 100.

(** Primary keys and emails are unique, and results go with the status. *)
Definition store_invariant (db : Db) : Prop :=
  NoDup (map u_id (users db))
  /\ NoDup (map a_id (assessments db))
  /\ NoDup (map e_id (analytics_events db))
  /\ NoDup (map u_email (users db))
  /\ Forall results_consistent (assessments db).

(** On every question of the catalog, [p] relates the answers of the two
    maps. *)
Definition answers_related (p : string -> string -> Prop) (catalog : list Category)
    (r1 r2 : gmap string (gmap string ResponseEntry)) : Prop :=
  Forall (fun c => Forall (fun q => p (effective_answer r1 c q)
                                      (effective_answer r2 c q))
                          (c_questions c)) catalog.

Definition example_jwt_decode (s : string) (now : Z) : option (option Z) :=
  if String.eqb s "token-of-1" && (now <? 1000)%Z then Some (Some 1%Z) else None.

(** [example_responses] with keys the catalog does not know. *)
Definition noisy_responses : gmap string (gmap string ResponseEntry) :=
  {[ "1" := {[ "q1" := entry "yes"; "q2" := entry "partial"; "zz" := entry "no" ]};
     "9" := {[ "q1" := entry "no" ]} ]}.

(** ** What a request may and may not touch *)

(** The authenticated caller of a request, if the endpoint has one. *)
Definition request_caller (req : Request) : option User :=
  match req with
  | ReqRegister _ | ReqLogin _ _ => None
  | ReqCreate _ user | ReqUpdate _ _ user | ReqComplete _ user => Some user
  end.

(** The columns of a user no request rewrites. *)
Definition user_identity (u : User)
  : Z * string * string * option string * option string * Z :=
  (u_id u, u_email u, u_hashed_password u, u_organization u, u_name u,
   u_created_at u).

(** The columns of an assessment no request rewrites. *)
Definition assessment_identity (a : Assessment)
  : Z * Z * string * option string * string * list string * list string
    * option string * option string * Z * Z :=
  (a_id a, a_user_id a, a_program_name a, a_organization a, a_program_level a,
   a_target_audience a, a_delivery_format a, a_program_duration a,
   a_assessor_role a, a_current_category a, a_created_at a).

(** Status and results of an assessment. *)
Definition assessment_outcome (a : Assessment)
  : string * (option Q * option (gmap string CategoryScore)
              * option (list Recommendation)) * option Z :=
  (a_status a, stored_results a, a_completed_at a).

(** ** One question answered differently *)

(** The responses map with the answer [a] stored for one question. *)
Definition with_answer (responses : gmap string (gmap string ResponseEntry))
    (cat_id qid a : string) : gmap string (gmap string ResponseEntry) :=
  <[ cat_id := <[ qid := entry a ]> (get_cat_responses responses cat_id) ]> responses.

(** The responses map with nothing stored for one question. *)
Definition without_answer (responses : gmap string (gmap string ResponseEntry))
    (cat_id qid : string) : gmap string (gmap string ResponseEntry) :=
  <[ cat_id := delete qid (get_cat_responses responses cat_id) ]> responses.

(** The question [qid] of the category [cat_id]. *)
Definition is_question (cat_id qid : string) (c : Category) (q : Question) : bool :=
  bool_decide (c_id c = cat_id) && bool_decide (q_id q = qid).

(** The candidate of one question: none unless its answer is "no" or
    "partial". *)
Definition question_candidates (responses : gmap string (gmap string ResponseEntry))
    (c : Category) (q : Question) : list Recommendation :=
  let a := effective_answer responses c q in
  if String.eqb a "no" || String.eqb a "partial"
  then [stated_candidate c q a] else [].

(** The candidates for [responses] in encounter order, with [at_question]
    in the place of the candidates of the question [qid] of category
    [cat_id]. *)
Definition candidates_except (responses : gmap string (gmap string ResponseEntry))
    (cat_id qid : string) (at_question : Category -> Question -> list Recommendation)
    (catalog : list Category) : list Recommendation :=
  flat_map (fun c =>
              flat_map (fun q => if is_question cat_id qid c q then at_question c q
                                 else question_candidates responses c q)
                       (c_questions c))
           catalog.

(** The scores of a result, without its recommendations. *)
Definition res_scores (r : CompleteResult) : Q * gmap string CategoryScore * string :=
  (res_overall_score r, res_category_scores r, res_readiness r).

(** The scoring loop distinguishes "yes", "partial" and everything else. *)
Definition same_points (a b : string) : Prop :=
  (a = "yes" <-> b = "yes") /\ (a = "partial" <-> b = "partial").

(** * The scoring code in binary64 arithmetic

    Python computes the scores with floats.  This module embeds lines
    285-345 of [complete_assessment] once more, with every number an IEEE 754
    binary64 value and every operation the correctly rounded one (round to
    nearest, ties to even), as specified by [SpecFloat] of the Standard
    Library at precision 53 and maximal exponent 1024.  Integers occurring in
    the code (the literals 0, 1, 2, 100, 75, 50 and integer JSON numbers) are
    the floats of the same value, which is what Python's mixed arithmetic and
    comparisons compute for integers below 2^53. *)

Module Binary64.

Definition float : Type := spec_float.

Definition prec : Z := 53.
Definition emax : Z := 1024.

(** [x + y], [x * y] and [x / y] on floats. *)
Definition fadd : float -> float -> float := SFadd prec emax.
Definition fmul : float -> float -> float := SFmul prec emax.
Definition fdiv : float -> float -> float := SFdiv prec emax.

(** [x < y], [x <= y] and [x == y] on floats; each is false when an argument
    is NaN. *)
Definition flt : float -> float -> bool := SFltb.
Definition fle : float -> float -> bool := SFleb.
Definition feq : float -> float -> bool := SFeqb.

(** The float of an integer. *)
Definition of_Z (n : Z) : float := binary_normalize prec emax n 0 false.

(** The float a decimal literal [n]e-[d] is read as (the float nearest to
    n / 10^d, for [n] below 2^53 and [d] at most 22). *)
Definition decimal (n : Z) (d : nat) : float :=
  fdiv (of_Z n) (of_Z (10 ^ Z.of_nat d)).

Definition is_nan (x : float) : bool :=
  match x with S754_nan => true | _ => false end.

(** Python's [a / b] on floats: raises [ZeroDivisionError] when [b == 0]. *)
Definition py_div (a b : float) : result float :=
  if feq b (of_Z 0) then Raise ZeroDivisionError else Ok (fdiv a b).

(** The rational number a finite float stands for (0 for the others). *)
Definition value (x : float) : Q :=
  match x with
  | S754_finite s m e =>
      (if s then -1 else 1) * (inject_Z (Z.pos m) * Qpower 2 e)
  | _ => 0
  end.

(** Python's [round(x, ndigits)] for [ndigits >= 0]: the float nearest to the
    decimal number with [ndigits] decimals nearest to [x] (ties to the even
    decimal); infinities and NaN are returned as they are, and the sign of
    [x] is kept. *)
Definition py_round (x : float) (ndigits : nat) : float :=
  match x with
  | S754_finite s m e =>
      let p := (10 ^ Z.of_nat ndigits)%Z in
      match round_half_even (Qabs (value x) * inject_Z p) with
      | Z.pos n => fdiv (S754_finite s n 0) (S754_finite false (Z.to_pos p) 0)
      | _ => S754_zero s
      end
  | _ => x
  end.

(** ** The static category catalog *)

Record Question : Type := {
  q_id : string;
  q_text : string;
  q_impact : option float;      (* absent key: [question.get("impact", 1.0)] *)
  q_guidance : option string
}.

Record Category : Type := {
  c_id : string;                (* [str(category["id"])] *)
  c_name : string;
  c_weight : float;
  c_questions : list Question
}.

(** [question.get("impact", 1.0)] *)
Definition impact_of (question : Question) : float :=
  default (of_Z 1) (q_impact question).

(** ** Scoring (main.py, lines 285-324) *)

(** Body of the inner loop over [category["questions"]]; the state is
    [(max_score, actual_score)]. *)
Definition score_question (cat_responses : gmap string ResponseEntry)
    (st : float * float) (question : Question) : float * float :=
  let '(max_score, actual_score) := st in
  let impact := impact_of question in
  let max_score := fadd max_score (fmul (of_Z 2) impact) in
  let answer := get_answer cat_responses (q_id question) in
  if decide (answer = "yes")
  then (max_score, fadd actual_score (fmul (of_Z 2) impact))
  else if decide (answer = "partial")
       then (max_score, fadd actual_score (fmul (of_Z 1) impact))
       else (max_score, actual_score).

Definition score_questions (cat_responses : gmap string ResponseEntry)
    (questions : list Question) : float * float :=
  fold_left (score_question cat_responses) questions (of_Z 0, of_Z 0).

(** [(actual_score / max_score * 100) if max_score > 0 else 0] *)
Definition raw_pct_of (actual_score max_score : float) : result float :=
  if flt (of_Z 0) max_score
  then q ← py_div actual_score max_score; Ok (fmul q (of_Z 100))
  else Ok (of_Z 0).

(** ["strong" if raw_pct >= 75 else ("adequate" if raw_pct >= 50 else "weak")] *)
Definition status_of (raw_pct : float) : string :=
  if fle (of_Z 75) raw_pct then "strong"
  else if fle (of_Z 50) raw_pct then "adequate"
  else "weak".

Record CategoryScore : Type := {
  cs_name : string;
  cs_raw_score : float;
  cs_weighted_score : float;
  cs_status : string
}.

Record ScoreState : Type := {
  category_scores : gmap string CategoryScore;
  total_weighted_score : float;
  total_weight : float
}.

Definition init_score_state : ScoreState :=
  {| category_scores := ∅; total_weighted_score := of_Z 0; total_weight := of_Z 0 |}.

(** Raw percentage of one category (the first half of the outer loop body). *)
Definition category_raw_pct (responses : gmap string (gmap string ResponseEntry))
    (category : Category) : result float :=
  let cat_responses := get_cat_responses responses (c_id category) in
  let '(max_score, actual_score) :=
    score_questions cat_responses (c_questions category) in
  raw_pct_of actual_score max_score.

(** Body of the outer loop over [CATEGORIES_DATA["categories"]]. *)
Definition score_category (responses : gmap string (gmap string ResponseEntry))
    (st : ScoreState) (category : Category) : result ScoreState :=
  raw_pct ← category_raw_pct responses category;
  let weighted_score := fmul raw_pct (c_weight category) in
  Ok {| category_scores :=
          <[ c_id category :=
               {| cs_name := c_name category;
                  cs_raw_score := py_round raw_pct 1;
                  cs_weighted_score := py_round weighted_score 2;
                  cs_status := status_of raw_pct |} ]> (category_scores st);
        total_weighted_score := fadd (total_weighted_score st) weighted_score;
        total_weight := fadd (total_weight st) (c_weight category) |}.

(** [round(total_weighted_score / total_weight, 1) if total_weight > 0 else 0] *)
Definition overall_of (st : ScoreState) : result float :=
  if flt (of_Z 0) (total_weight st)
  then q ← py_div (total_weighted_score st) (total_weight st); Ok (py_round q 1)
  else Ok (of_Z 0).

(** ["ready" if overall_score >= 75 else ("promising" if ... >= 50 else "needs_work")] *)
Definition readiness_of (overall_score : float) : string :=
  if fle (of_Z 75) overall_score then "ready"
  else if fle (of_Z 50) overall_score then "promising"
  else "needs_work".

(** ** Recommendations (main.py, lines 326-345) *)

Record Recommendation : Type := {
  rec_category : string;
  rec_question : string;
  rec_current_answer : string;
  rec_guidance : string;
  rec_impact : float;
  rec_priority_score : float
}.

(** The dict appended for a question whose answer is [answer]. *)
Definition make_recommendation (category : Category) (question : Question)
    (answer : string) : Recommendation :=
  {| rec_category := c_name category;
     rec_question := q_text question;
     rec_current_answer := answer;
     rec_guidance := default EmptyString (q_guidance question);
     rec_impact := impact_of question;
     rec_priority_score :=
       fmul (fmul (c_weight category) (impact_of question))
            (if decide (answer = "no") then of_Z 2 else of_Z 1) |}.

Definition recommend_question (category : Category)
    (cat_responses : gmap string ResponseEntry)
    (recommendations : list Recommendation) (question : Question)
  : list Recommendation :=
  let answer := get_answer cat_responses (q_id question) in
  if decide (answer ∈ ["no"; "partial"])
  then recommendations ++ [make_recommendation category question answer]
  else recommendations.

Definition recommend_category (responses : gmap string (gmap string ResponseEntry))
    (recommendations : list Recommendation) (category : Category)
  : list Recommendation :=
  let cat_responses := get_cat_responses responses (c_id category) in
  fold_left (recommend_question category cat_responses)
            (c_questions category) recommendations.

Definition candidate_recommendations (catalog : list Category)
    (responses : gmap string (gmap string ResponseEntry)) : list Recommendation :=
  fold_left (recommend_category responses) catalog [].

(** [list.sort(key=..., reverse=True)] on float keys none of which is NaN: a
    stable sort into non-increasing key order.  An element is placed after
    every element whose key is strictly larger and before every other one, so
    equal keys keep their input order. *)
Fixpoint insert_desc {A : Type} (key : A -> float) (x : A) (l : list A) : list A :=
  match l with
  | [] => [x]
  | y :: l' =>
      if flt (key x) (key y) then y :: insert_desc key x l'
      else x :: y :: l'
  end.

Definition sort_reverse {A : Type} (key : A -> float) (l : list A) : list A :=
  fold_right (insert_desc key) [] l.

(** ** The pure part of [complete_assessment] *)

Record CompleteResult : Type := {
  res_overall_score : float;
  res_category_scores : gmap string CategoryScore;
  res_recommendations : list Recommendation;
  res_readiness : string
}.

Definition compute_scores (catalog : list Category)
    (responses : gmap string (gmap string ResponseEntry)) : result CompleteResult :=
  st ← for_each (score_category responses) catalog init_score_state;
  overall_score ← overall_of st;
  let recommendations := candidate_recommendations catalog responses in
  let recommendations := sort_reverse rec_priority_score recommendations in
  let top_recommendations := take 10 recommendations in
  Ok {| res_overall_score := overall_score;
        res_category_scores := category_scores st;
        res_recommendations := top_recommendations;
        res_readiness := readiness_of overall_score |}.

(** ** The scoring rules, evaluated in binary64

    The formulas of the specification with every sum accumulated from 0 in
    list order, as Python's [+=] does, and every operation rounded. *)

(** [s = 0; for x in l: s += x] *)
Definition fsum (l : list float) : float := fold_left fadd l (of_Z 0).

(** Maximum attainable points of a question: 2 x impact. *)
Definition max_points (question : Question) : float :=
  fmul (of_Z 2) (impact_of question).

(** Attained points: 2 x impact for "yes", 1 x impact for "partial"; for
    "no", any other answer or a missing one nothing is added. *)
Definition attained_points (answer : option string) (question : Question)
  : option float :=
  match answer with
  | Some a =>
      if decide (a = "yes") then Some (fmul (of_Z 2) (impact_of question))
      else if decide (a = "partial") then Some (fmul (of_Z 1) (impact_of question))
      else None
  | None => None
  end.

Definition category_maximum (category : Category) : float :=
  fsum (map max_points (c_questions category)).

Definition category_attained (responses : gmap string (gmap string ResponseEntry))
    (category : Category) : float :=
  fsum (omap (fun q => attained_points
                         (stored_answer responses (c_id category) (q_id q)) q)
             (c_questions category)).

(** Raw percentage: attained / maximum x 100, and 0 unless the maximum is
    greater than 0. *)
Definition raw_percentage (responses : gmap string (gmap string ResponseEntry))
    (category : Category) : float :=
  if flt (of_Z 0) (category_maximum category)
  then fmul (fdiv (category_attained responses category)
                  (category_maximum category)) (of_Z 100)
  else of_Z 0.

Definition total_catalog_weight (catalog : list Category) : float :=
  fsum (map c_weight catalog).

Definition weighted_sum (raw : Category -> float) (catalog : list Category) : float :=
  fsum (map (fun c => fmul (raw c) (c_weight c)) catalog).

(** Overall score: the sum of raw percentage x weight divided by the sum of
    the weights, rounded to one decimal, and 0 unless the total weight is
    greater than 0. *)
Definition overall (catalog : list Category)
    (responses : gmap string (gmap string ResponseEntry)) : float :=
  if flt (of_Z 0) (total_catalog_weight catalog)
  then py_round (fdiv (weighted_sum (raw_percentage responses) catalog)
                      (total_catalog_weight catalog)) 1
  else of_Z 0.

(** "strong" iff raw >= 75, "adequate" iff 50 <= raw < 75, else "weak". *)
Definition status_rule (raw : float) (status : string) : Prop :=
  (status = "strong" <-> fle (of_Z 75) raw = true)
  /\ (status = "adequate" <-> fle (of_Z 50) raw = true /\ flt raw (of_Z 75) = true)
  /\ (status = "weak" <-> fle (of_Z 50) raw = false).

(** "ready" iff overall >= 75, "promising" iff 50 <= overall < 75, else
    "needs_work". *)
Definition readiness_rule (overall_score : float) (label : string) : Prop :=
  (label = "ready" <-> fle (of_Z 75) overall_score = true)
  /\ (label = "promising" <->
        fle (of_Z 50) overall_score = true /\ flt overall_score (of_Z 75) = true)
  /\ (label = "needs_work" <-> fle (of_Z 50) overall_score = false).

(** The entry of the breakdown written for a category. *)
Definition category_entry (responses : gmap string (gmap string ResponseEntry))
    (c : Category) : CategoryScore :=
  {| cs_name := c_name c;
     cs_raw_score := py_round (raw_percentage responses c) 1;
     cs_weighted_score := py_round (fmul (raw_percentage responses c) (c_weight c)) 2;
     cs_status := status_of (raw_percentage responses c) |}.

(** [category_scores[cat_id] = {...}] *)
Definition write_entry (responses : gmap string (gmap string ResponseEntry))
    (m : gmap string CategoryScore) (c : Category) : gmap string CategoryScore :=
  <[ c_id c := category_entry responses c ]> m.

(** What a result of the complete operation has to satisfy. *)
Definition scoring_rules (catalog : list Category)
    (responses : gmap string (gmap string ResponseEntry))
    (r : CompleteResult) : Prop :=
  res_overall_score r = overall catalog responses
  /\ readiness_rule (res_overall_score r) (res_readiness r)
  /\ (forall c, c ∈ catalog ->
        category_raw_pct responses c = Ok (raw_percentage responses c))
  /\ (forall c, c ∈ catalog -> is_Some (res_category_scores r !! c_id c))
  /\ (forall cid cs, res_category_scores r !! cid = Some cs ->
        exists c, c ∈ catalog /\ c_id c = cid
          /\ cs_name cs = c_name c
          /\ cs_raw_score cs = py_round (raw_percentage responses c) 1
          /\ cs_weighted_score cs
             = py_round (fmul (raw_percentage responses c) (c_weight c)) 2
          /\ status_rule (raw_percentage responses c) (cs_status cs)).

(** ** The recommendation rules, evaluated in binary64 *)

(** The answer of a question, a missing one treated as "no". *)
Definition effective_answer (responses : gmap string (gmap string ResponseEntry))
    (category : Category) (question : Question) : string :=
  default "no" (stored_answer responses (c_id category) (q_id question)).

(** Priority score = category weight x impact x (2 if the answer is "no"
    else 1). *)
Definition stated_priority (category : Category) (question : Question)
    (answer : string) : float :=
  fmul (fmul (c_weight category) (impact_of question))
       (if String.eqb answer "no" then of_Z 2 else of_Z 1).

Definition stated_candidate (category : Category) (question : Question)
    (answer : string) : Recommendation :=
  {| rec_category := c_name category;
     rec_question := q_text question;
     rec_current_answer := answer;
     rec_guidance := default EmptyString (q_guidance question);
     rec_impact := impact_of question;
     rec_priority_score := stated_priority category question answer |}.

(** The candidates of one category, in question order: one for each question
    answered "no" or "partial". *)
Definition category_candidates (responses : gmap string (gmap string ResponseEntry))
    (category : Category) : list Recommendation :=
  flat_map (fun q =>
              let a := effective_answer responses category q in
              if String.eqb a "no" || String.eqb a "partial"
              then [stated_candidate category q a] else [])
           (c_questions category).

(** All candidates in encounter order: category order, then question order. *)
Definition stated_candidates (catalog : list Category)
    (responses : gmap string (gmap string ResponseEntry)) : list Recommendation :=
  flat_map (category_candidates responses) catalog.

(** Non-increasing key order. *)
Definition sorted_desc {A : Type} (key : A -> float) (l : list A) : Prop :=
  StronglySorted (fun a b => fle (key b) (key a) = true) l.




(** ** Classes of floats and catalogs *)

(** Neither an infinity nor NaN. *)
Definition is_finite (x : float) : bool :=
  match x with S754_zero _ | S754_finite _ _ _ => true | _ => false end.




(** The numbers of the catalog are finite, as the numbers of a JSON document
    are. *)
Definition finite_question (q : Question) : bool := is_finite (impact_of q).

Definition finite_category (c : Category) : bool :=
  is_finite (c_weight c) && forallb finite_question (c_questions c).

Definition finite_catalog (catalog : list Category) : bool :=
  forallb finite_category catalog.

(** The catalog invariant: weights and impacts are non-negative. *)
Definition nonneg_question (q : Question) : bool := fle (of_Z 0) (impact_of q).

Definition nonneg_category (c : Category) : bool :=
  fle (of_Z 0) (c_weight c) && forallb nonneg_question (c_questions c).

Definition nonneg_catalog (catalog : list Category) : bool :=
  forallb nonneg_category catalog.

(** Every question of every category of the catalog has an (effective)
    answer satisfying [P]. *)
Definition every_answer (P : string -> Prop) (catalog : list Category)
    (responses : gmap string (gmap string ResponseEntry)) : Prop :=
  Forall (fun c => Forall (fun q => P (effective_answer responses c q))
                          (c_questions c)) catalog.

(** ** The order of the floats

    A float that is not NaN is placed by three integers compared
    lexicographically: its class (negative infinity, negative, zero,
    positive, positive infinity), then exponent and mantissa, both negated
    for a negative number. *)
Definition ord (x : float) : Z * Z * Z :=
  match x with
  | S754_zero _ | S754_nan => (0, 0, 0)%Z
  | S754_infinity s => (if s then -2 else 2, 0, 0)%Z
  | S754_finite s m e =>
      if s then (-1, - e, Z.neg m)%Z else (1, e, Z.pos m)%Z
  end.

Definition lt3 (a b : Z * Z * Z) : Prop :=
  (a.1.1 < b.1.1
   \/ (a.1.1 = b.1.1 /\ (a.1.2 < b.1.2 \/ (a.1.2 = b.1.2 /\ a.2 < b.2))))%Z.

End Binary64.

(** ** Exact values of a binary64 catalog

    The catalog of rationals whose weights and impacts are the exact values
    of the floats of a binary64 catalog; the formulas of the specification
    are evaluated on it in exact arithmetic. *)
Definition exact_question (q : Binary64.Question) : Question :=
  {| q_id := Binary64.q_id q; q_text := Binary64.q_text q;
     q_impact := Some (Binary64.value (Binary64.impact_of q));
     q_guidance := Binary64.q_guidance q |}.

Definition exact_category (c : Binary64.Category) : Category :=
  {| c_id := Binary64.c_id c; c_name := Binary64.c_name c;
     c_weight := Binary64.value (Binary64.c_weight c);
     c_questions := map exact_question (Binary64.c_questions c) |}.

Definition exact_catalog (catalog : list Binary64.Category) : list Category :=
  map exact_category catalog.

(** ** Example catalogs in binary64 *)

Definition question64 (id text : string) (impact : option Binary64.float)
  : Binary64.Question :=
  {| Binary64.q_id := id; Binary64.q_text := text;
     Binary64.q_impact := impact; Binary64.q_guidance := None |}.

(** One category of weight 1 with the given questions. *)
Definition governance (questions : list Binary64.Question) : list Binary64.Category :=
  [ {| Binary64.c_id := "1"; Binary64.c_name := "Governance";
       Binary64.c_weight := Binary64.of_Z 1;
       Binary64.c_questions := questions |} ].

(** Two questions of impact 0.7; with "yes" and "partial" the attained
    points are 3/4 of the maximum. *)
Definition rounding_catalog : list Binary64.Category :=
  governance [question64 "q1" "Is there a charter?" (Some (Binary64.decimal 7 1));
              question64 "q2" "Is there a budget?" (Some (Binary64.decimal 7 1))].

(** Eight questions of impact 0.7; with one "yes" and one "partial" the
    attained points are 3/16 of the maximum: 18.75 per cent. *)
Definition tie_catalog : list Binary64.Category :=
  governance
    (map (fun n => question64 ("q" +:+ n) ("Question " +:+ n)
                              (Some (Binary64.decimal 7 1)))
         ["1"; "2"; "3"; "4"; "5"; "6"; "7"; "8"]).


(** One category of weight 1.7e308 with one question of impact 1: 100 times
    the weight is beyond the largest float. *)
Definition heavy_catalog : list Binary64.Category :=
  [ {| Binary64.c_id := "1"; Binary64.c_name := "Governance";
       Binary64.c_weight := Binary64.of_Z (17 * 10 ^ 307);
       Binary64.c_questions :=
         [question64 "q1" "Is there a charter?" (Some (Binary64.of_Z 1))] |} ].


(** Category A of weight 0.3 with a question of impact 1, then category B of
    weight 0.1 with a question of impact 3: in binary64 the priority score of
    the second, 0.1 x 3 x 2, is the float above 0.3 x 1 x 2. *)
Definition tied_priority_catalog : list Binary64.Category :=
  [ {| Binary64.c_id := "1"; Binary64.c_name := "A";
       Binary64.c_weight := Binary64.decimal 3 1;
       Binary64.c_questions :=
         [question64 "q1" "Question of A" (Some (Binary64.of_Z 1))] |};
    {| Binary64.c_id := "2"; Binary64.c_name := "B";
       Binary64.c_weight := Binary64.decimal 1 1;
       Binary64.c_questions :=
         [question64 "q1" "Question of B" (Some (Binary64.of_Z 3))] |} ].

(** * Properties *)

(** ** Rounding *)

Lemma round_half_even_comp (x y : Q) :
  x == y -> round_half_even x = round_half_even y.
Proof.
  intros E. unfold round_half_even.
  assert (F : Qfloor x = Qfloor y) by (apply Qfloor_comp; exact E).
  rewrite F.
  assert (C : Qcompare (x - inject_Z (Qfloor y)) (1 # 2)
              = Qcompare (y - inject_Z (Qfloor y)) (1 # 2)).
  { apply Qcompare_comp; [rewrite E|]; reflexivity. }
  rewrite C. reflexivity.
Qed.

Lemma py_round_comp (x y : Q) (n : nat) : x == y -> py_round x n = py_round y n.
Proof.
  intros E. unfold py_round.
  set (p := inject_Z (10 ^ Z.of_nat n)).
  rewrite (round_half_even_comp (x * p) (y * p)); [reflexivity|].
  rewrite E. reflexivity.
Qed.


(** Rounding never crosses an integer. *)
Lemma round_half_even_ge (x : Q) (n : Z) :
  inject_Z n <= x -> (n <= round_half_even x)%Z.
Proof.
  intros H. apply Qfloor_resp_le in H. rewrite Qfloor_Z in H.
  unfold round_half_even.
  destruct (Qcompare _ _); [destruct (Z.even _)| |]; lia.
Qed.

Lemma round_half_even_le (x : Q) (n : Z) :
  x <= inject_Z n -> (round_half_even x <= n)%Z.
Proof.
  intros H. pose proof (Qfloor_le x) as L.
  assert (F : (Qfloor x <= n)%Z).
  { apply Qfloor_resp_le in H. rewrite Qfloor_Z in H. exact H. }
  assert (S : 0 < x - inject_Z (Qfloor x) -> (Qfloor x + 1 <= n)%Z).
  { intros P. destruct (Z.eq_dec (Qfloor x) n) as [E|]; [rewrite E in P; lra|lia]. }
  unfold round_half_even.
  destruct (Qcompare (x - inject_Z (Qfloor x)) (1 # 2)) eqn:C.
  - apply Qeq_alt in C. destruct (Z.even _); [lia|]. apply S. lra.
  - lia.
  - apply Qgt_alt in C. apply S. lra.
Qed.

Lemma py_round_1_bounds (x : Q) :
  0 <= x <= 100 -> 0 <= py_round x 1 <= 100.
Proof.
  intros [L U]. unfold py_round. change (inject_Z (10 ^ Z.of_nat 1)) with 10.
  assert (A : (0 <= round_half_even (x * 10))%Z).
  { apply round_half_even_ge. change (inject_Z 0) with 0. lra. }
  assert (B : (round_half_even (x * 10) <= 1000)%Z).
  { apply round_half_even_le. change (inject_Z 1000) with 1000. lra. }
  set (r := round_half_even (x * 10)) in *.
  assert (E : inject_Z r / 10 == inject_Z r * (1 # 10)) by field.
  rewrite E.
  assert (A' : inject_Z 0 <= inject_Z r) by (rewrite <- Zle_Qle; exact A).
  assert (B' : inject_Z r <= inject_Z 1000) by (rewrite <- Zle_Qle; exact B).
  change (inject_Z 0) with 0 in A'. change (inject_Z 1000) with 1000 in B'.
  lra.
Qed.

(** ** The scoring loops compute the sums of the specification *)

Lemma Qsum_nil : Qsum [] = 0.
Proof. reflexivity. Qed.

Lemma Qsum_cons (x : Q) (l : list Q) : Qsum (x :: l) = x + Qsum l.
Proof. reflexivity. Qed.

Lemma get_answer_stored (responses : gmap string (gmap string ResponseEntry))
    (cat_id q_id : string) :
  get_answer (get_cat_responses responses cat_id) q_id
  = default "no" (stored_answer responses cat_id q_id).
Proof.
  unfold get_answer, get_cat_responses, stored_answer.
  destruct (responses !! cat_id) as [cr|]; simpl.
  - destruct (cr !! q_id) as [e|]; reflexivity.
  - rewrite lookup_empty. reflexivity.
Qed.

(** One iteration of the inner loop adds the question's maximum and attained
    points to the two accumulators. *)
Lemma score_question_step (responses : gmap string (gmap string ResponseEntry))
    (cat_id : string) (m a : Q) (q : Question) :
  let st := score_question (get_cat_responses responses cat_id) (m, a) q in
  fst st == m + max_points q
  /\ snd st == a + attained_points (stored_answer responses cat_id (q_id q)) q.
Proof.
  unfold score_question. rewrite get_answer_stored.
  unfold max_points, attained_points.
  destruct (stored_answer responses cat_id (q_id q)) as [s|]; simpl.
  - repeat case_decide; simpl; split; lra.
  - split; lra.
Qed.

Lemma score_questions_from (responses : gmap string (gmap string ResponseEntry))
    (cat_id : string) (qs : list Question) (m a : Q) :
  let st := fold_left (score_question (get_cat_responses responses cat_id)) qs (m, a) in
  fst st == m + Qsum (map max_points qs)
  /\ snd st ==
       a + Qsum (map (fun q => attained_points
                                 (stored_answer responses cat_id (q_id q)) q) qs).
Proof.
  cbv zeta. revert m a.
  induction qs as [|q qs IH]; intros m a;
    cbn [fold_left map fst snd]; rewrite ?Qsum_cons, ?Qsum_nil.
  - split; lra.
  - pose proof (score_question_step responses cat_id m a q) as [Hm Ha].
    destruct (score_question _ (m, a) q) as [m1 a1] eqn:E.
    cbn [fst snd] in Hm, Ha.
    destruct (IH m1 a1) as [IHm IHa]. split.
    + rewrite IHm, Hm. lra.
    + rewrite IHa, Ha. lra.
Qed.

Lemma score_questions_sums (responses : gmap string (gmap string ResponseEntry))
    (c : Category) :
  let st := score_questions (get_cat_responses responses (c_id c)) (c_questions c) in
  fst st == category_maximum c /\ snd st == category_attained responses c.
Proof.
  destruct (score_questions_from responses (c_id c) (c_questions c) 0 0) as [A B].
  unfold score_questions, category_maximum, category_attained. simpl.
  split; [rewrite A|rewrite B]; lra.
Qed.

(** The guard [max_score > 0] keeps the division from raising. *)
Lemma py_div_pos (a b : Q) : 0 < b -> py_div a b = Ok (a / b).
Proof.
  intros H. unfold py_div.
  destruct (Qeq_bool b 0) eqn:E; [|reflexivity].
  apply Qeq_bool_eq in E. lra.
Qed.

Lemma raw_pct_of_ok (a m : Q) :
  raw_pct_of a m = Ok (if Qlt_le_dec 0 m then a / m * 100 else 0).
Proof.
  unfold raw_pct_of. destruct (Qlt_le_dec 0 m) as [P|N]; [|reflexivity].
  rewrite (py_div_pos a m P). reflexivity.
Qed.

Lemma guarded_ratio_comp (a a' m m' : Q) :
  a == a' -> m == m' ->
  (if Qlt_le_dec 0 m then a / m * 100 else 0)
  == (if Qlt_le_dec 0 m' then a' / m' * 100 else 0).
Proof.
  intros Ea Em.
  destruct (Qlt_le_dec 0 m), (Qlt_le_dec 0 m'); try lra.
  rewrite Ea, Em. reflexivity.
Qed.

(** The raw percentage of a category never raises and is the guarded ratio of
    the two sums. *)
Lemma category_raw_pct_ok (responses : gmap string (gmap string ResponseEntry))
    (c : Category) :
  exists p, category_raw_pct responses c = Ok p /\ p == guarded_raw_pct responses c.
Proof.
  unfold category_raw_pct.
  pose proof (score_questions_sums responses c) as [Hm Ha].
  destruct (score_questions _ _) as [m a]. simpl in Hm, Ha.
  rewrite raw_pct_of_ok. eexists. split; [reflexivity|].
  unfold guarded_raw_pct. apply guarded_ratio_comp; assumption.
Qed.

(** ** Status labels *)

Lemma status_of_comp (p p' : Q) : p == p' -> status_of p = status_of p'.
Proof.
  intros E. unfold status_of.
  assert (A : Qle_bool 75 p = Qle_bool 75 p')
    by (apply Qleb_comp; [reflexivity|exact E]).
  assert (B : Qle_bool 50 p = Qle_bool 50 p')
    by (apply Qleb_comp; [reflexivity|exact E]).
  rewrite A, B. reflexivity.
Qed.

(** ** The outer loop *)

(** One iteration of the outer loop never raises: it writes the entry of the
    category and adds its weighted score and its weight to the totals. *)
Lemma score_category_ok (responses : gmap string (gmap string ResponseEntry))
    (st : ScoreState) (c : Category) :
  exists p, p == guarded_raw_pct responses c
    /\ category_raw_pct responses c = Ok p
    /\ score_category responses st c =
       Ok {| category_scores :=
               <[ c_id c := {| cs_name := c_name c;
                               cs_raw_score := py_round p 1;
                               cs_weighted_score := py_round (p * c_weight c) 2;
                               cs_status := status_of p |} ]> (category_scores st);
             total_weighted_score := total_weighted_score st + p * c_weight c;
             total_weight := total_weight st + c_weight c |}.
Proof.
  destruct (category_raw_pct_ok responses c) as [p [E Hp]].
  exists p. split; [exact Hp|]. split; [exact E|].
  unfold score_category. rewrite E. reflexivity.
Qed.

(** The whole loop, from any state: the totals grow by the sums over the
    catalog, every category gets an entry, and every entry was there before
    or was written for a category of the catalog. *)
Lemma score_categories_from (responses : gmap string (gmap string ResponseEntry))
    (catalog : list Category) (st : ScoreState) :
  exists st', for_each (score_category responses) catalog st = Ok st'
    /\ total_weighted_score st' ==
         total_weighted_score st + weighted_sum (guarded_raw_pct responses) catalog
    /\ total_weight st' == total_weight st + total_catalog_weight catalog
    /\ (forall k, is_Some (category_scores st !! k) ->
                  is_Some (category_scores st' !! k))
    /\ (forall c, c ∈ catalog -> is_Some (category_scores st' !! c_id c))
    /\ (forall cid cs, category_scores st' !! cid = Some cs ->
          category_scores st !! cid = Some cs
          \/ exists c, c ∈ catalog /\ c_id c = cid
               /\ cs_name cs = c_name c
               /\ cs_raw_score cs = py_round (guarded_raw_pct responses c) 1
               /\ cs_weighted_score cs =
                    py_round (guarded_raw_pct responses c * c_weight c) 2
               /\ cs_status cs = status_of (guarded_raw_pct responses c)).
Proof.
  revert st. induction catalog as [|c catalog IH]; intros st.
  - exists st. cbn [for_each].
    unfold weighted_sum, total_catalog_weight. cbn [map]. rewrite Qsum_nil.
    repeat split; try lra; try tauto.
    intros c Hc. inversion Hc.
  - destruct (score_category_ok responses st c) as (p & Hp & _ & E).
    cbn [for_each]. rewrite E. cbn [mbind result_bind].
    match goal with |- context [for_each _ _ ?s] => destruct (IH s) as
        (st' & R & Hws & Hw & Hmono & Hdom & Hent) end.
    exists st'. rewrite R. cbn [total_weighted_score total_weight category_scores] in *.
    unfold weighted_sum, total_catalog_weight in *. cbn [map].
    rewrite !Qsum_cons.
    split; [reflexivity|]. split; [rewrite Hws, Hp; lra|].
    split; [rewrite Hw; lra|]. split; [|split].
    + intros k Hk. apply Hmono.
      destruct (decide (c_id c = k)) as [->|N].
      * rewrite lookup_insert_eq. eauto.
      * rewrite lookup_insert_ne by exact N. exact Hk.
    + intros c' Hc'. apply elem_of_cons in Hc' as [->|Hc'].
      * apply Hmono. rewrite lookup_insert_eq. eauto.
      * apply Hdom. exact Hc'.
    + intros cid cs Hcs. destruct (Hent cid cs Hcs) as [Hin|Hex].
      * destruct (decide (c_id c = cid)) as [Heq|N].
        -- rewrite <- Heq, lookup_insert_eq in Hin.
           injection Hin as <-. right. exists c. cbn.
           split; [apply list_elem_of_here|]. split; [exact Heq|].
           split; [reflexivity|].
           split; [apply py_round_comp; exact Hp|].
           split; [apply py_round_comp; rewrite Hp; reflexivity|].
           apply status_of_comp; exact Hp.
        -- rewrite lookup_insert_ne in Hin by exact N. left. exact Hin.
      * right. destruct Hex as (c' & Hc' & Hrest). exists c'.
        split; [apply list_elem_of_further; exact Hc'|exact Hrest].
Qed.

Lemma overall_of_ok (st : ScoreState) :
  overall_of st =
  Ok (if Qlt_le_dec 0 (total_weight st)
      then py_round (total_weighted_score st / total_weight st) 1 else 0).
Proof.
  unfold overall_of. destruct (Qlt_le_dec 0 (total_weight st)) as [P|N]; [|reflexivity].
  rewrite (py_div_pos _ _ P). reflexivity.
Qed.

(** [compute_scores] never raises, and its parts are those of the loops. *)
Lemma compute_scores_ok (catalog : list Category)
    (responses : gmap string (gmap string ResponseEntry)) :
  exists st, for_each (score_category responses) catalog init_score_state = Ok st
    /\ compute_scores catalog responses =
       Ok (let overall_score :=
             if Qlt_le_dec 0 (total_weight st)
             then py_round (total_weighted_score st / total_weight st) 1 else 0 in
           {| res_overall_score := overall_score;
              res_category_scores := category_scores st;
              res_recommendations :=
                take 10 (sort_reverse rec_priority_score
                           (candidate_recommendations catalog responses));
              res_readiness := readiness_of overall_score |}).
Proof.
  destruct (score_categories_from responses catalog init_score_state)
    as (st & R & _).
  exists st. split; [exact R|].
  unfold compute_scores. rewrite R. cbn [mbind result_bind].
  rewrite overall_of_ok. reflexivity.
Qed.

Lemma overall_guarded (catalog : list Category)
    (responses : gmap string (gmap string ResponseEntry)) (st : ScoreState) :
  total_weighted_score st == weighted_sum (guarded_raw_pct responses) catalog ->
  total_weight st == total_catalog_weight catalog ->
  (if Qlt_le_dec 0 (total_weight st)
   then py_round (total_weighted_score st / total_weight st) 1 else 0)
  == guarded_overall catalog responses.
Proof.
  intros Hws Hw. unfold guarded_overall.
  destruct (Qlt_le_dec 0 (total_weight st)),
           (Qlt_le_dec 0 (total_catalog_weight catalog)); try lra.
  rewrite (py_round_comp _ (weighted_sum (guarded_raw_pct responses) catalog
                            / total_catalog_weight catalog)); [reflexivity|].
  rewrite Hws, Hw. reflexivity.
Qed.

(** ** The result in terms of the sums *)

(** The worked example of the specification: raw 75, status "strong",
    overall score 75, readiness "ready". *)
Example example_scores :
  exists r, compute_scores example_catalog example_responses = Ok r
    /\ res_overall_score r == 75
    /\ res_readiness r = "ready"
    /\ (cs_raw_score <$> res_category_scores r !! "1") = Some (750 # 10)
    /\ (cs_status <$> res_category_scores r !! "1") = Some "strong".
Proof. eexists. repeat split; vm_compute; reflexivity. Qed.

(** The result of [compute_scores] in terms of the sums of the specification. *)
Lemma compute_scores_spec (catalog : list Category)
    (responses : gmap string (gmap string ResponseEntry)) :
  exists r, compute_scores catalog responses = Ok r
    /\ res_overall_score r == guarded_overall catalog responses
    /\ res_readiness r = readiness_of (res_overall_score r)
    /\ res_recommendations r =
         take 10 (sort_reverse rec_priority_score
                    (candidate_recommendations catalog responses))
    /\ (forall c, c ∈ catalog -> is_Some (res_category_scores r !! c_id c))
    /\ (forall cid cs, res_category_scores r !! cid = Some cs ->
          exists c, c ∈ catalog /\ c_id c = cid
            /\ cs_name cs = c_name c
            /\ cs_raw_score cs = py_round (guarded_raw_pct responses c) 1
            /\ cs_weighted_score cs =
                 py_round (guarded_raw_pct responses c * c_weight c) 2
            /\ cs_status cs = status_of (guarded_raw_pct responses c)).
Proof.
  destruct (compute_scores_ok catalog responses) as (st & R & E).
  destruct (score_categories_from responses catalog init_score_state)
    as (st' & R' & Hws & Hw & _ & Hdom & Hent).
  rewrite R in R'. injection R' as <-.
  cbn [init_score_state total_weighted_score total_weight category_scores] in *.
  eexists. split; [exact E|]. cbv zeta.
  cbn [res_overall_score res_readiness res_category_scores res_recommendations].
  split; [|split; [|split; [|split]]]; try reflexivity.
  - apply overall_guarded; [rewrite Hws|rewrite Hw]; lra.
  - exact Hdom.
  - intros cid cs Hcs. destruct (Hent cid cs Hcs) as [Hin|Hex]; [|exact Hex].
    rewrite lookup_empty in Hin. discriminate.
Qed.

(** ** Sorting: [sort_reverse] is the stable descending sort *)

Section Sorting.

Context {A : Type} (key : A -> Q).

Lemma insert_desc_perm (x : A) (l : list A) :
  Permutation (insert_desc key x l) (x :: l).
Proof.
  induction l as [|y l IH]; cbn [insert_desc]; [reflexivity|].
  destruct (Qlt_le_dec (key x) (key y)); [|reflexivity].
  rewrite IH. apply perm_swap.
Qed.

Lemma sort_reverse_perm (l : list A) : Permutation (sort_reverse key l) l.
Proof.
  induction l as [|x l IH]; [reflexivity|].
  unfold sort_reverse in *. cbn [fold_right].
  rewrite insert_desc_perm. apply perm_skip. exact IH.
Qed.

Lemma insert_desc_Forall (P : A -> Prop) (x : A) (l : list A) :
  P x -> Forall P l -> Forall P (insert_desc key x l).
Proof.
  intros Hx Hl. induction Hl as [|y l Hy Hl IH]; cbn [insert_desc].
  - constructor; [exact Hx|constructor].
  - destruct (Qlt_le_dec (key x) (key y)); repeat constructor; assumption.
Qed.

Lemma insert_desc_sorted (x : A) (l : list A) :
  sorted_desc key l -> sorted_desc key (insert_desc key x l).
Proof.
  unfold sorted_desc. intros Hl.
  induction Hl as [|y l Hl IH Hy]; cbn [insert_desc].
  - repeat constructor.
  - destruct (Qlt_le_dec (key x) (key y)) as [Lt|Le].
    + constructor; [exact IH|].
      apply insert_desc_Forall; [lra|exact Hy].
    + constructor; [constructor; assumption|].
      constructor; [exact Le|].
      eapply Forall_impl; [exact Hy|]. cbn. intros z Hz. lra.
Qed.

Lemma sort_reverse_sorted (l : list A) : sorted_desc key (sort_reverse key l).
Proof.
  induction l as [|x l IH]; [constructor|].
  unfold sort_reverse in *. cbn [fold_right].
  apply insert_desc_sorted. exact IH.
Qed.

End Sorting.

(** ** The recommendation loops produce the candidates in encounter order *)

Lemma make_recommendation_stated (c : Category) (q : Question) (a : string) :
  make_recommendation c q a = stated_candidate c q a.
Proof.
  unfold make_recommendation, stated_candidate, stated_priority.
  destruct (decide (a = "no")) as [->|N]; [reflexivity|].
  apply String.eqb_neq in N. rewrite N. reflexivity.
Qed.

Lemma in_no_partial (a : string) :
  a ∈ ["no"; "partial"] <-> (String.eqb a "no" || String.eqb a "partial") = true.
Proof.
  rewrite orb_true_iff, !String.eqb_eq, !elem_of_cons, elem_of_nil. tauto.
Qed.

Lemma recommend_question_app (responses : gmap string (gmap string ResponseEntry))
    (c : Category) (acc : list Recommendation) (q : Question) :
  recommend_question c (get_cat_responses responses (c_id c)) acc q
  = (acc ++ (let a := effective_answer responses c q in
             if String.eqb a "no" || String.eqb a "partial"
             then [stated_candidate c q a] else []))%list.
Proof.
  unfold recommend_question, effective_answer. rewrite get_answer_stored.
  cbv zeta. set (a := default "no" _).
  destruct (decide (a ∈ ["no"; "partial"])) as [Y|N].
  - rewrite (proj1 (in_no_partial a) Y), make_recommendation_stated. reflexivity.
  - destruct (String.eqb a "no" || String.eqb a "partial") eqn:E.
    + exfalso. apply N, in_no_partial, E.
    + rewrite app_nil_r. reflexivity.
Qed.

Lemma recommend_category_app (responses : gmap string (gmap string ResponseEntry))
    (acc : list Recommendation) (c : Category) :
  recommend_category responses acc c
  = (acc ++ category_candidates responses c)%list.
Proof.
  unfold recommend_category, category_candidates.
  generalize (c_questions c) as qs. intros qs. revert acc.
  induction qs as [|q qs IH]; intros acc; cbn [fold_left flat_map].
  - rewrite app_nil_r. reflexivity.
  - rewrite recommend_question_app, IH, <- app_assoc. reflexivity.
Qed.

Lemma candidate_recommendations_from
    (responses : gmap string (gmap string ResponseEntry))
    (catalog : list Category) (acc : list Recommendation) :
  fold_left (recommend_category responses) catalog acc
  = (acc ++ stated_candidates catalog responses)%list.
Proof.
  unfold stated_candidates. revert acc.
  induction catalog as [|c catalog IH]; intros acc; cbn [fold_left flat_map].
  - rewrite app_nil_r. reflexivity.
  - rewrite recommend_category_app, IH, <- app_assoc. reflexivity.
Qed.

Lemma candidate_recommendations_stated (catalog : list Category)
    (responses : gmap string (gmap string ResponseEntry)) :
  candidate_recommendations catalog responses = stated_candidates catalog responses.
Proof. apply (candidate_recommendations_from responses catalog []). Qed.

(** Ties keep encounter order: the three candidates of priority 2 follow in
    catalog order ("charter", "budget" of category 1, "syllabus" of category
    2; the last key is 4/2). *)
Example ranking_example :
  exists r, compute_scores two_category_catalog no_responses = Ok r
    /\ rec_question <$> res_recommendations r
       = ["Is there an exam?"; "Are outcomes stated?"; "Is there a charter?";
          "Is there a budget?"; "Is there a syllabus?"]
    /\ rec_priority_score <$> res_recommendations r = [12; 4; 2; 2; 4 # 2].
Proof. eexists. repeat split; vm_compute; reflexivity. Qed.

(** Twelve unanswered questions give twelve candidates, of which the ten of
    highest priority are returned. *)
Example truncation_example :
  exists r, compute_scores twelve_question_catalog ∅ = Ok r
    /\ length (candidate_recommendations twelve_question_catalog ∅) = 12%nat
    /\ rec_question <$> res_recommendations r
       = ["Question 12"; "Question 11"; "Question 10"; "Question 9";
          "Question 8"; "Question 7"; "Question 6"; "Question 5";
          "Question 4"; "Question 3"].
Proof. eexists. repeat split; vm_compute; reflexivity. Qed.

(** ** Bounds of the formulas in exact arithmetic

    With non-negative weights and impacts the raw percentage and the overall
    score of the specification, evaluated on rationals, lie within
    [[0, 100]]. *)

Lemma nonneg_catalog_weight (catalog : list Category) (c : Category) :
  nonneg_catalog catalog = true -> c ∈ catalog -> 0 <= c_weight c.
Proof.
  unfold nonneg_catalog. rewrite forallb_forall. intros H Hc.
  apply list_elem_of_In, H in Hc. unfold nonneg_category in Hc.
  apply andb_true_iff in Hc as [Hw _]. apply Qle_bool_iff. exact Hw.
Qed.

Lemma nonneg_catalog_impact (catalog : list Category) (c : Category) (q : Question) :
  nonneg_catalog catalog = true -> c ∈ catalog -> In q (c_questions c) ->
  0 <= impact_of q.
Proof.
  unfold nonneg_catalog. rewrite forallb_forall. intros H Hc Hq.
  apply list_elem_of_In, H in Hc. unfold nonneg_category in Hc.
  apply andb_true_iff in Hc as [_ Hqs]. rewrite forallb_forall in Hqs.
  apply Qle_bool_iff. apply Hqs. exact Hq.
Qed.

Lemma attained_points_bounds (a : option string) (q : Question) :
  0 <= impact_of q -> 0 <= attained_points a q <= max_points q.
Proof.
  intros H. unfold attained_points, max_points.
  destruct a as [s|]; repeat case_decide; split; lra.
Qed.

Lemma Qsum_pointwise (X : Type) (f g : X -> Q) (l : list X) :
  (forall x, In x l -> 0 <= f x <= g x) ->
  0 <= Qsum (map f l) <= Qsum (map g l).
Proof.
  induction l as [|x l IH]; intros H; cbn [map]; rewrite ?Qsum_cons, ?Qsum_nil.
  - split; lra.
  - destruct (H x (or_introl eq_refl)).
    destruct IH; [intros y Hy; apply H; right; exact Hy|]. split; lra.
Qed.

Lemma category_attained_bounds (responses : gmap string (gmap string ResponseEntry))
    (c : Category) :
  (forall q, In q (c_questions c) -> 0 <= impact_of q) ->
  0 <= category_attained responses c <= category_maximum c.
Proof.
  intros H. unfold category_attained, category_maximum.
  apply Qsum_pointwise. intros q Hq. apply attained_points_bounds, H, Hq.
Qed.

Lemma ratio_bounds (a m : Q) : 0 <= a <= m -> 0 < m -> 0 <= a / m * 100 <= 100.
Proof.
  intros [La Ua] Pm.
  assert (L : 0 <= a / m) by (apply Qle_shift_div_l; [exact Pm|lra]).
  assert (U : a / m <= 1) by (apply Qle_shift_div_r; [exact Pm|lra]).
  split; lra.
Qed.

Lemma guarded_raw_pct_bounds (responses : gmap string (gmap string ResponseEntry))
    (c : Category) :
  (forall q, In q (c_questions c) -> 0 <= impact_of q) ->
  0 <= guarded_raw_pct responses c <= 100.
Proof.
  intros H. unfold guarded_raw_pct.
  destruct (Qlt_le_dec 0 (category_maximum c)) as [P|N]; [|split; lra].
  apply ratio_bounds; [apply category_attained_bounds, H|exact P].
Qed.

Lemma weighted_sum_bounds (raw : Category -> Q) (catalog : list Category) :
  (forall c, c ∈ catalog -> 0 <= raw c <= 100 /\ 0 <= c_weight c) ->
  0 <= weighted_sum raw catalog <= 100 * total_catalog_weight catalog
  /\ 0 <= total_catalog_weight catalog.
Proof.
  unfold weighted_sum, total_catalog_weight.
  induction catalog as [|c catalog IH]; intros H; cbn [map];
    rewrite ?Qsum_cons, ?Qsum_nil.
  - repeat split; lra.
  - destruct (H c (list_elem_of_here _ _)) as [[L U] W].
    destruct IH as [[IL IU] IW].
    { intros c' Hc'. apply H, list_elem_of_further, Hc'. }
    assert (0 <= raw c * c_weight c) by (apply Qmult_le_0_compat; assumption).
    assert (raw c * c_weight c <= 100 * c_weight c)
      by (apply Qmult_le_compat_r; assumption).
    repeat split; lra.
Qed.

Lemma guarded_overall_bounds (catalog : list Category)
    (responses : gmap string (gmap string ResponseEntry)) :
  nonneg_catalog catalog = true ->
  0 <= guarded_overall catalog responses <= 100.
Proof.
  intros Hinv. unfold guarded_overall.
  destruct (Qlt_le_dec 0 (total_catalog_weight catalog)) as [P|N]; [|split; lra].
  apply py_round_1_bounds.
  destruct (weighted_sum_bounds (guarded_raw_pct responses) catalog) as [[L U] _].
  { intros c Hc. split.
    - apply guarded_raw_pct_bounds. intros q Hq.
      apply (nonneg_catalog_impact catalog c q Hinv Hc Hq).
    - apply (nonneg_catalog_weight catalog c Hinv Hc). }
  split.
  - apply Qle_shift_div_l; [exact P|lra].
  - apply Qle_shift_div_r; [exact P|lra].
Qed.

(** ** All "yes" and all "no" *)










(** ** Answers outside "yes", "partial", "no" *)

Lemma stored_answer_with (responses : gmap string (gmap string ResponseEntry))
    (cat_id qid a : string) (c : Category) (q : Question) :
  stored_answer (with_answer responses cat_id qid a) (c_id c) (q_id q)
  = if is_question cat_id qid c q then Some a
    else stored_answer responses (c_id c) (q_id q).
Proof.
  unfold is_question, with_answer, stored_answer.
  destruct (decide (c_id c = cat_id)) as [Ec|Nc].
  - rewrite (bool_decide_eq_true_2 _ Ec), Ec, lookup_insert_eq. cbn.
    destruct (decide (q_id q = qid)) as [Eq|Nq].
    + rewrite (bool_decide_eq_true_2 _ Eq), Eq, lookup_insert_eq. reflexivity.
    + rewrite (bool_decide_eq_false_2 _ Nq), lookup_insert_ne by congruence.
      unfold get_cat_responses.
      destruct (responses !! cat_id); cbn; [reflexivity|rewrite lookup_empty; reflexivity].
  - rewrite (bool_decide_eq_false_2 _ Nc), lookup_insert_ne by congruence.
    reflexivity.
Qed.

Lemma stored_answer_without (responses : gmap string (gmap string ResponseEntry))
    (cat_id qid : string) (c : Category) (q : Question) :
  stored_answer (without_answer responses cat_id qid) (c_id c) (q_id q)
  = if is_question cat_id qid c q then None
    else stored_answer responses (c_id c) (q_id q).
Proof.
  unfold is_question, without_answer, stored_answer.
  destruct (decide (c_id c = cat_id)) as [Ec|Nc].
  - rewrite (bool_decide_eq_true_2 _ Ec), Ec, lookup_insert_eq. cbn.
    destruct (decide (q_id q = qid)) as [Eq|Nq].
    + rewrite (bool_decide_eq_true_2 _ Eq), Eq, lookup_delete_eq. reflexivity.
    + rewrite (bool_decide_eq_false_2 _ Nq), lookup_delete_ne by congruence.
      unfold get_cat_responses.
      destruct (responses !! cat_id); cbn; [reflexivity|rewrite lookup_empty; reflexivity].
  - rewrite (bool_decide_eq_false_2 _ Nc), lookup_insert_ne by congruence.
    reflexivity.
Qed.

Lemma score_question_same_points (r1 r2 : gmap string (gmap string ResponseEntry))
    (c : Category) (q : Question) (st : Q * Q) :
  same_points (effective_answer r1 c q) (effective_answer r2 c q) ->
  score_question (get_cat_responses r1 (c_id c)) st q
  = score_question (get_cat_responses r2 (c_id c)) st q.
Proof.
  intros [Hy Hp]. unfold score_question, effective_answer in *.
  rewrite !get_answer_stored.
  set (a := default "no" (stored_answer r1 (c_id c) (q_id q))) in *.
  set (b := default "no" (stored_answer r2 (c_id c) (q_id q))) in *.
  destruct st as [m s].
  destruct (decide (a = "yes")), (decide (b = "yes")); try tauto.
  destruct (decide (a = "partial")), (decide (b = "partial")); tauto.
Qed.

Lemma score_categories_same_points
    (r1 r2 : gmap string (gmap string ResponseEntry)) (catalog : list Category)
    (st : ScoreState) :
  (forall c q, same_points (effective_answer r1 c q) (effective_answer r2 c q)) ->
  for_each (score_category r1) catalog st = for_each (score_category r2) catalog st.
Proof.
  intros H. revert st. induction catalog as [|c catalog IH]; intros st; [reflexivity|].
  cbn [for_each].
  assert (E : score_category r1 st c = score_category r2 st c).
  { unfold score_category, category_raw_pct, score_questions.
    assert (F : forall qs s,
               fold_left (score_question (get_cat_responses r1 (c_id c))) qs s
               = fold_left (score_question (get_cat_responses r2 (c_id c))) qs s).
    { induction qs as [|q qs IHq]; intros s; [reflexivity|]. cbn [fold_left].
      rewrite (score_question_same_points r1 r2 c q s (H c q)). apply IHq. }
    rewrite F. reflexivity. }
  rewrite E. destruct (score_category r2 st c); cbn; [apply IH|reflexivity].
Qed.

Lemma compute_scores_same_points
    (r1 r2 : gmap string (gmap string ResponseEntry)) (catalog : list Category) :
  (forall c q, same_points (effective_answer r1 c q) (effective_answer r2 c q)) ->
  exists x1 x2, compute_scores catalog r1 = Ok x1
    /\ compute_scores catalog r2 = Ok x2
    /\ res_scores x1 = res_scores x2.
Proof.
  intros H.
  destruct (compute_scores_ok catalog r1) as (st1 & F1 & C1).
  destruct (compute_scores_ok catalog r2) as (st2 & F2 & C2).
  rewrite (score_categories_same_points r1 r2 catalog _ H), F2 in F1.
  injection F1 as <-.
  eexists. eexists. split; [exact C1|]. split; [exact C2|]. reflexivity.
Qed.

Lemma candidates_as_except (responses base : gmap string (gmap string ResponseEntry))
    (cat_id qid : string) (at_question : Category -> Question -> list Recommendation)
    (catalog : list Category) :
  (forall c q, question_candidates responses c q
               = if is_question cat_id qid c q then at_question c q
                 else question_candidates base c q) ->
  candidate_recommendations catalog responses
  = candidates_except base cat_id qid at_question catalog.
Proof.
  intros H. rewrite candidate_recommendations_stated.
  unfold stated_candidates, candidates_except, category_candidates.
  induction catalog as [|c catalog IH]; cbn [flat_map]; [reflexivity|].
  rewrite IH. f_equal.
  induction (c_questions c) as [|q qs IHq]; cbn [flat_map]; [reflexivity|].
  rewrite IHq. f_equal. apply (H c q).
Qed.

(** C10: let the stored answer of a question be none of "yes", "partial",
    "no".  The complete operation then returns the scores (overall score,
    breakdown, readiness) it returns when that question is answered "no" and
    when it is left unanswered: the question earns no points.  Its
    recommendations differ: the candidates are those of the map that leaves
    the question unanswered with, in the place of that question, no candidate
    for the unrecognised answer and the candidate with answer "no" for the
    unanswered question (and for the answer "no"); the returned lists are the
    first ten of their rankings. *)
Theorem unrecognised_answer_scores_0_without_candidate (catalog : list Category)
    (responses : gmap string (gmap string ResponseEntry)) (cat_id qid a : string) :
  stored_answer responses cat_id qid = Some a ->
  a <> "yes" -> a <> "partial" -> a <> "no" ->
  let unanswered := without_answer responses cat_id qid in
  let answered_no := with_answer responses cat_id qid "no" in
  let none := fun (_ : Category) (_ : Question) => @nil Recommendation in
  let one := fun c q => [stated_candidate c q "no"] in
  exists r r_un r_no,
    compute_scores catalog responses = Ok r
    /\ compute_scores catalog unanswered = Ok r_un
    /\ compute_scores catalog answered_no = Ok r_no
    /\ res_scores r = res_scores r_no
    /\ res_scores r = res_scores r_un
    /\ candidate_recommendations catalog responses
       = candidates_except unanswered cat_id qid none catalog
    /\ candidate_recommendations catalog unanswered
       = candidates_except unanswered cat_id qid one catalog
    /\ candidate_recommendations catalog answered_no
       = candidates_except unanswered cat_id qid one catalog
    /\ res_recommendations r
       = take 10 (sort_reverse rec_priority_score
                    (candidates_except unanswered cat_id qid none catalog))
    /\ res_recommendations r_un
       = take 10 (sort_reverse rec_priority_score
                    (candidates_except unanswered cat_id qid one catalog))
    /\ res_recommendations r_no = res_recommendations r_un.
Proof.
  intros Ha Ny Np Nn unanswered answered_no none one.
  assert (Eun : forall c q, effective_answer unanswered c q
                  = if is_question cat_id qid c q then "no"
                    else effective_answer responses c q).
  { intros c q. unfold effective_answer, unanswered.
    rewrite stored_answer_without. destruct (is_question _ _ c q); reflexivity. }
  assert (Eno : forall c q, effective_answer answered_no c q
                  = if is_question cat_id qid c q then "no"
                    else effective_answer responses c q).
  { intros c q. unfold effective_answer, answered_no.
    rewrite stored_answer_with. destruct (is_question _ _ c q); reflexivity. }
  assert (Er : forall c q, is_question cat_id qid c q = true ->
                           effective_answer responses c q = a).
  { intros c q Hq. unfold is_question in Hq. apply andb_true_iff in Hq as [Hc Hq].
    apply bool_decide_eq_true in Hc, Hq. unfold effective_answer.
    rewrite Hc, Hq, Ha. reflexivity. }
  assert (Pun : forall c q, same_points (effective_answer responses c q)
                                        (effective_answer unanswered c q)).
  { intros c q. rewrite Eun. destruct (is_question cat_id qid c q) eqn:E.
    - rewrite (Er c q E). split; split; intros; (congruence || discriminate).
    - split; reflexivity. }
  assert (Pno : forall c q, same_points (effective_answer responses c q)
                                        (effective_answer answered_no c q)).
  { intros c q. rewrite Eno, <- Eun. apply Pun. }
  assert (Cr : candidate_recommendations catalog responses
               = candidates_except unanswered cat_id qid none catalog).
  { apply candidates_as_except. intros c q. unfold question_candidates.
    rewrite Eun. destruct (is_question cat_id qid c q) eqn:E; [|reflexivity].
    rewrite (Er c q E).
    destruct (String.eqb_spec a "no"); [contradiction|].
    destruct (String.eqb_spec a "partial"); [contradiction|]. reflexivity. }
  assert (Cun : candidate_recommendations catalog unanswered
                = candidates_except unanswered cat_id qid one catalog).
  { apply candidates_as_except. intros c q. unfold question_candidates.
    destruct (is_question cat_id qid c q) eqn:E; [|reflexivity].
    rewrite Eun, E. reflexivity. }
  assert (Cno : candidate_recommendations catalog answered_no
                = candidates_except unanswered cat_id qid one catalog).
  { apply candidates_as_except. intros c q. unfold question_candidates.
    rewrite Eno, Eun. destruct (is_question cat_id qid c q); reflexivity. }
  destruct (compute_scores_same_points responses answered_no catalog Pno)
    as (r & r_no & Rr & Rno & Sno).
  destruct (compute_scores_same_points responses unanswered catalog Pun)
    as (r' & r_un & Rr' & Run & Sun).
  rewrite Rr in Rr'. injection Rr' as <-.
  exists r, r_un, r_no. repeat (split; [assumption|]).
  destruct (compute_scores_ok catalog responses) as (s1 & _ & C1).
  destruct (compute_scores_ok catalog unanswered) as (s2 & _ & C2).
  destruct (compute_scores_ok catalog answered_no) as (s3 & _ & C3).
  rewrite Rr in C1. rewrite Run in C2. rewrite Rno in C3.
  injection C1 as ->. injection C2 as ->. injection C3 as ->.
  cbn [res_recommendations]. rewrite Cr, Cun, Cno. repeat split; reflexivity.
Qed.

(** The answer "maybe" for "q1" of the worked example. *)
Lemma unrecognised_answer_scores_0_without_candidate_witness :
  exists r r_un r_no,
    compute_scores example_catalog maybe_responses = Ok r
    /\ compute_scores example_catalog (without_answer maybe_responses "1" "q1")
       = Ok r_un
    /\ compute_scores example_catalog (with_answer maybe_responses "1" "q1" "no")
       = Ok r_no
    /\ res_scores r = res_scores r_no
    /\ res_scores r = res_scores r_un
    /\ candidate_recommendations example_catalog maybe_responses
       = candidates_except (without_answer maybe_responses "1" "q1") "1" "q1"
           (fun _ _ => []) example_catalog
    /\ candidate_recommendations example_catalog
         (without_answer maybe_responses "1" "q1")
       = candidates_except (without_answer maybe_responses "1" "q1") "1" "q1"
           (fun c q => [stated_candidate c q "no"]) example_catalog
    /\ candidate_recommendations example_catalog
         (with_answer maybe_responses "1" "q1" "no")
       = candidates_except (without_answer maybe_responses "1" "q1") "1" "q1"
           (fun c q => [stated_candidate c q "no"]) example_catalog
    /\ res_recommendations r
       = take 10 (sort_reverse rec_priority_score
                    (candidates_except (without_answer maybe_responses "1" "q1")
                       "1" "q1" (fun _ _ => []) example_catalog))
    /\ res_recommendations r_un
       = take 10 (sort_reverse rec_priority_score
                    (candidates_except (without_answer maybe_responses "1" "q1")
                       "1" "q1" (fun c q => [stated_candidate c q "no"])
                       example_catalog))
    /\ res_recommendations r_no = res_recommendations r_un.
Proof.
  apply (unrecognised_answer_scores_0_without_candidate example_catalog
           maybe_responses "1" "q1" "maybe");
    [reflexivity|discriminate|discriminate|discriminate].
Defined.

(** On the worked example: with "maybe" stored for "q1" nothing is
    recommended, whereas leaving "q1" unanswered recommends it. *)
Example unrecognised_answer_example :
  exists r r', compute_scores example_catalog maybe_responses = Ok r
    /\ compute_scores example_catalog unanswered_responses = Ok r'
    /\ res_overall_score r = res_overall_score r'
    /\ res_category_scores r = res_category_scores r'
    /\ res_recommendations r = []
    /\ rec_question <$> res_recommendations r' = ["Is there a charter?"].
Proof. do 2 eexists. repeat split; vm_compute; reflexivity. Qed.

(** ** Response updates *)

(** A submitted category replaces, in the dict [current], the stored one as
    a whole. *)
Lemma merge_responses_submitted
    (stored : option (gmap string (gmap string ResponseEntry)))
    (responses : gmap string (gmap string ResponseEntry))
    (cat_id : string) (m : gmap string ResponseEntry) :
  responses !! cat_id = Some m ->
  merge_responses stored responses !! cat_id = Some m.
Proof.
  intros H. unfold merge_responses. apply lookup_union_Some_l. exact H.
Qed.

(** Merging into a stored value that is [None] or [{}] gives the submission. *)
Lemma merge_responses_falsy
    (stored : option (gmap string (gmap string ResponseEntry)))
    (responses : gmap string (gmap string ResponseEntry)) :
  truthy_responses stored = false -> merge_responses stored responses = responses.
Proof.
  unfold truthy_responses, merge_responses. destruct stored as [m|]; cbn.
  - intros H. apply negb_false_iff, bool_decide_eq_true in H. subst m.
    apply (right_id_L ∅ (∪)).
  - intros _. apply (right_id_L ∅ (∪)).
Qed.

(** What an update leaves in the [responses] column. *)
Lemma save_responses_stored
    (stored : option (gmap string (gmap string ResponseEntry)))
    (responses : gmap string (gmap string ResponseEntry)) (now : Z)
    (a : Assessment) :
  a_responses a = stored ->
  a_responses (save_responses stored responses now a)
  = (if truthy_responses stored then stored else Some responses).
Proof.
  intros E. unfold save_responses.
  destruct (truthy_responses stored) eqn:T; cbn [set_updated_at set_responses a_responses].
  - exact E.
  - rewrite (merge_responses_falsy _ _ T). reflexivity.
Qed.

Lemma save_responses_identity
    (stored : option (gmap string (gmap string ResponseEntry)))
    (responses : gmap string (gmap string ResponseEntry)) (now : Z)
    (a : Assessment) :
  a_id (save_responses stored responses now a) = a_id a
  /\ a_user_id (save_responses stored responses now a) = a_user_id a
  /\ a_updated_at (save_responses stored responses now a) = now.
Proof.
  unfold save_responses. destruct (truthy_responses stored); repeat split.
Qed.

(** C2 (evaluation at the failing input): the assessment holds "yes" for "q1"
    and "partial" for "q2" of category "1".  An update by the owner that
    submits "no" for "q1" answers "Responses saved", but the row read
    afterwards still holds the responses it held before: the submitted entry
    has not overwritten the stored "yes".  Only [updated_at] has changed. *)
Theorem update_of_answered_assessment_not_saved :
  (a_responses <$> query_assessment answered_db 1 (u_id alice))
  = Some (Some example_responses)
  /\ stored_answer example_responses "1" "q1" = Some "yes"
  /\ stored_answer q1_only_update "1" "q1" = Some "no"
  /\ exists db', update_responses 1 q1_only_update alice 500 answered_db
                 = (Ok "Responses saved", db')
       /\ (a_responses <$> query_assessment db' 1 (u_id alice))
          = Some (Some example_responses)
       /\ (a_updated_at <$> query_assessment answered_db 1 (u_id alice)) = Some 400%Z
       /\ (a_updated_at <$> query_assessment db' 1 (u_id alice)) = Some 500%Z.
Proof.
  repeat split; try (vm_compute; reflexivity).
  eexists. repeat split; vm_compute; reflexivity.
Qed.

(** ** Access to assessments is scoped to the owner *)

Lemma owned_by_true (assessment_id user_id : Z) (a : Assessment) :
  owned_by assessment_id user_id a = true
  <-> a_id a = assessment_id /\ a_user_id a = user_id.
Proof.
  unfold owned_by. rewrite andb_true_iff, !bool_decide_eq_true. reflexivity.
Qed.

Lemma query_assessment_Some (db : Db) (assessment_id user_id : Z) (a : Assessment) :
  query_assessment db assessment_id user_id = Some a ->
  a ∈ assessments db /\ a_id a = assessment_id /\ a_user_id a = user_id.
Proof.
  unfold query_assessment. intros H. apply find_some in H as [Hin Hp].
  split; [apply list_elem_of_In, Hin|apply owned_by_true, Hp].
Qed.

Lemma query_assessment_None (db : Db) (assessment_id user_id : Z) :
  (forall a, a ∈ assessments db ->
             ~ (a_id a = assessment_id /\ a_user_id a = user_id)) ->
  query_assessment db assessment_id user_id = None.
Proof.
  unfold query_assessment. generalize (assessments db) as l.
  induction l as [|x l IH]; intros H; cbn [find]; [reflexivity|].
  destruct (owned_by assessment_id user_id x) eqn:E.
  - apply owned_by_true in E. exfalso. apply (H x); [apply list_elem_of_here|exact E].
  - apply IH. intros a Ha. apply H, list_elem_of_further, Ha.
Qed.

Lemma not_owned_query (db : Db) (assessment_id : Z) (user : User) :
  ~ owned_assessment db assessment_id user ->
  query_assessment db assessment_id (u_id user) = None.
Proof.
  intros N. apply query_assessment_None. intros a Ha [Hid Hu].
  apply N. exists a. auto.
Qed.

(** The primary key identifies the row. *)
Lemma primary_key_unique (l : list Assessment) (a b : Assessment) :
  NoDup (map a_id l) -> a ∈ l -> b ∈ l -> a_id a = a_id b -> a = b.
Proof.
  induction l as [|x l IH]; cbn [map]; intros Hnd Ha Hb E.
  - inversion Ha.
  - apply NoDup_cons in Hnd as [Hx Hnd].
    apply elem_of_cons in Ha as [->|Ha]; apply elem_of_cons in Hb as [->|Hb].
    + reflexivity.
    + exfalso. apply Hx. rewrite E. apply (list_elem_of_fmap_2 a_id), Hb.
    + exfalso. apply Hx. rewrite <- E. apply (list_elem_of_fmap_2 a_id), Ha.
    + apply IH; assumption.
Qed.

Lemma foreign_not_owned (db : Db) (assessment_id : Z) (user : User)
    (other : Assessment) :
  NoDup (map a_id (assessments db)) ->
  other ∈ assessments db -> a_id other = assessment_id ->
  a_user_id other <> u_id user ->
  ~ owned_assessment db assessment_id user.
Proof.
  intros Hpk Hin Hid Hforeign (a & Ha & Haid & Hau).
  assert (a = other).
  { apply (primary_key_unique (assessments db)); try assumption. congruence. }
  subst a. contradiction.
Qed.

(** C8: for an authenticated user, get, response update and complete succeed
    only on an assessment that exists and is owned by that user; without such
    an assessment, and in particular when the assessment of that id belongs to
    another user, each of them answers 404 "Assessment not found" (not 403)
    and leaves the store unchanged. *)
Theorem assessment_access_owner_scoped (catalog : list Category) (db : Db)
    (user : User) (assessment_id : Z)
    (submitted : gmap string (gmap string ResponseEntry)) (now : Z) :
  (some_succeeds catalog db user assessment_id submitted now ->
   owned_assessment db assessment_id user)
  /\ (~ owned_assessment db assessment_id user ->
      all_not_found catalog db user assessment_id submitted now)
  /\ (forall other,
        NoDup (map a_id (assessments db)) ->
        other ∈ assessments db -> a_id other = assessment_id ->
        a_user_id other <> u_id user ->
        all_not_found catalog db user assessment_id submitted now).
Proof.
  assert (B : ~ owned_assessment db assessment_id user ->
              all_not_found catalog db user assessment_id submitted now).
  { intros N. apply not_owned_query in N.
    unfold all_not_found, get_assessment, update_responses, complete_assessment.
    rewrite N. repeat split; reflexivity. }
  split; [|split; [exact B|]].
  - unfold some_succeeds, get_assessment, update_responses, complete_assessment.
    destruct (query_assessment db assessment_id (u_id user)) as [a|] eqn:Q.
    + intros _. apply query_assessment_Some in Q as (Hin & Hid & Hu).
      exists a. auto.
    + intros [(a & db' & H)|[(m & db' & H)|(r & db' & H)]]; discriminate.
  - intros other Hpk Hin Hid Hforeign.
    apply B. apply (foreign_not_owned db assessment_id user other); assumption.
Qed.

(** Bob asks for assessment 1, which belongs to Alice. *)
Lemma assessment_access_owner_scoped_witness :
  all_not_found example_catalog answered_db bob 1 q1_only_update 500.
Proof.
  destruct (assessment_access_owner_scoped example_catalog answered_db bob 1
              q1_only_update 500) as (_ & _ & H).
  apply (H (set_responses example_responses 400
              {| a_id := 1; a_user_id := 1;
                 a_program_name := "Foundations"; a_organization := None;
                 a_program_level := "introductory";
                 a_target_audience := ["students"];
                 a_delivery_format := ["online"];
                 a_program_duration := None; a_assessor_role := None;
                 a_status := "in_progress"; a_current_category := 1;
                 a_responses := Some ∅; a_overall_score := None;
                 a_category_scores := None; a_recommendations := None;
                 a_created_at := 300; a_updated_at := 300;
                 a_completed_at := None |})).
  - vm_compute. repeat constructor. intros H'. inversion H'.
  - vm_compute. apply list_elem_of_here.
  - reflexivity.
  - discriminate.
Defined.

(** ** Registration *)

Lemma query_user_by_email_found (db : Db) (email : string) :
  (exists u, u ∈ users db /\ u_email u = email) ->
  exists u, query_user_by_email db email = Some u.
Proof.
  unfold query_user_by_email. intros (u & Hin & He).
  destruct (find _ (users db)) as [u'|] eqn:F; [eauto|].
  exfalso. apply list_elem_of_In in Hin.
  pose proof (find_none _ _ F u Hin) as N. cbn in N.
  apply bool_decide_eq_false in N. contradiction.
Qed.

(** C9: when a user with the submitted email already exists, [register]
    raises the HTTP error 400 "Email already registered" and the store, hence
    the user table, is unchanged. *)
Theorem register_existing_email_conflict (pwd_hash : string -> string)
    (user_data : UserCreate) (now : Z) (db : Db) :
  (exists u, u ∈ users db /\ u_email u = uc_email user_data) ->
  register pwd_hash user_data now db
    = (Raise (HTTPException 400 "Email already registered"), db)
  /\ users (snd (register pwd_hash user_data now db)) = users db.
Proof.
  intros H. apply query_user_by_email_found in H as [u Q].
  unfold register. rewrite Q. split; reflexivity.
Qed.

(** Registering the same email a second time, here Alice in a store where
    she and Bob are registered. *)
Lemma register_existing_email_conflict_witness :
  register example_hash alice_data 600 two_user_db
    = (Raise (HTTPException 400 "Email already registered"), two_user_db)
  /\ users (snd (register example_hash alice_data 600 two_user_db))
     = users two_user_db.
Proof.
  apply (register_existing_email_conflict example_hash alice_data 600 two_user_db).
  exists alice. split; [vm_compute; apply list_elem_of_here|reflexivity].
Defined.

(** A successful registration stores the email, so a second registration of
    the same email is a conflict. *)
Lemma register_twice (pwd_hash : string -> string) (user_data again : UserCreate)
    (now later : Z) (db db1 : Db) (r : AuthResponse) :
  register pwd_hash user_data now db = (Ok r, db1) ->
  uc_email again = uc_email user_data ->
  register pwd_hash again later db1
    = (Raise (HTTPException 400 "Email already registered"), db1).
Proof.
  intros H E. unfold register in H.
  destruct (query_user_by_email db (uc_email user_data)); [discriminate|].
  injection H as _ <-.
  assert (Hex : exists u, u ∈ users
            (add_event "user_registered"
               (Some (next_id u_id (users db))) None None now
               {| users := users db ++
                    [{| u_id := next_id u_id (users db);
                        u_email := uc_email user_data;
                        u_hashed_password := pwd_hash (uc_password user_data);
                        u_organization := uc_organization user_data;
                        u_name := uc_name user_data;
                        u_created_at := now; u_last_login := None |}];
                  assessments := assessments db;
                  analytics_events := analytics_events db |})
          /\ u_email u = uc_email again).
  { eexists. split; [cbn; apply elem_of_app; right; apply list_elem_of_here|].
    cbn. symmetry. exact E. }
  apply query_user_by_email_found in Hex as [u Q].
  unfold register at 1. cbn [u_id] in Q |- *. rewrite Q. reflexivity.
Qed.

(** ** Completing an assessment again *)

Lemma find_update_first {X : Type} (p : X -> bool) (f : X -> X) (l : list X) (a : X) :
  find p l = Some a -> p (f a) = true ->
  find p (update_first p f l) = Some (f a).
Proof.
  induction l as [|x l IH]; cbn [find update_first]; [discriminate|].
  destruct (p x) eqn:E.
  - intros [= ->] Hf. cbn [find]. rewrite Hf. reflexivity.
  - intros H Hf. cbn [find]. rewrite E. apply IH; assumption.
Qed.

Lemma owned_by_set_completed (assessment_id user_id : Z) (r : CompleteResult)
    (now : Z) (a : Assessment) :
  owned_by assessment_id user_id (set_completed r now a)
  = owned_by assessment_id user_id a.
Proof. reflexivity. Qed.

(** The row read back after a completion is the one that was found, with the
    results written on it. *)
Lemma query_after_completion (db : Db) (assessment_id : Z) (user : User)
    (a : Assessment) (r : CompleteResult) (now : Z) (data : option Q) :
  query_assessment db assessment_id (u_id user) = Some a ->
  query_assessment
    (add_event "assessment_completed" (Some (u_id user)) (Some (a_id a)) data now
       {| users := users db;
          assessments := update_first (owned_by assessment_id (u_id user))
                                      (set_completed r now) (assessments db);
          analytics_events := analytics_events db |})
    assessment_id (u_id user)
  = Some (set_completed r now a).
Proof.
  unfold query_assessment. cbn [add_event assessments]. intros Q.
  apply find_update_first; [exact Q|].
  rewrite owned_by_set_completed. apply find_some in Q as [_ Hp]. exact Hp.
Qed.

(** On an owned assessment the complete operation succeeds with the result
    of [compute_scores] on the stored responses: what is proved of
    [compute_scores] holds of every successful completion. *)
Lemma complete_assessment_owned (catalog : list Category) (assessment_id : Z)
    (user : User) (now : Z) (db : Db) (a : Assessment) :
  query_assessment db assessment_id (u_id user) = Some a ->
  exists r db', complete_assessment catalog assessment_id user now db = (Ok r, db')
    /\ compute_scores catalog (default ∅ (a_responses a)) = Ok r.
Proof.
  intros Q. unfold complete_assessment. rewrite Q.
  destruct (compute_scores_ok catalog (default ∅ (a_responses a))) as (st & _ & E).
  rewrite E. do 2 eexists. split; reflexivity.
Qed.

(** C4: the result of a successful complete operation is [compute_scores]
    of the catalog and the stored responses, and nothing else; completing the
    same assessment again, at any later time, returns the identical result
    (overall score, category scores, recommendations, readiness) and stores
    the identical results on the row. *)
Theorem complete_twice_same_result (catalog : list Category) (assessment_id : Z)
    (user : User) (now1 now2 : Z) (db db1 : Db) (r1 : CompleteResult) :
  complete_assessment catalog assessment_id user now1 db = (Ok r1, db1) ->
  exists a db2,
    query_assessment db assessment_id (u_id user) = Some a
    /\ compute_scores catalog (default ∅ (a_responses a)) = Ok r1
    /\ complete_assessment catalog assessment_id user now2 db1 = (Ok r1, db2)
    /\ (stored_results <$> query_assessment db1 assessment_id (u_id user))
       = Some (results_of r1)
    /\ (stored_results <$> query_assessment db2 assessment_id (u_id user))
       = Some (results_of r1).
Proof.
  unfold complete_assessment at 1.
  destruct (query_assessment db assessment_id (u_id user)) as [a|] eqn:Q;
    [|discriminate].
  destruct (compute_scores catalog (default ∅ (a_responses a))) as [r|e] eqn:C;
    [|discriminate].
  intros [= -> <-].
  pose proof (query_after_completion db assessment_id user a r1 now1
                (Some (res_overall_score r1)) Q) as Q1.
  set (db1 := add_event _ _ _ _ _ _) in *.
  pose proof (query_after_completion db1 assessment_id user _ r1 now2
                (Some (res_overall_score r1)) Q1) as Q2.
  exists a. eexists. split; [reflexivity|]. split; [exact C|].
  unfold complete_assessment. rewrite Q1.
  change (a_responses (set_completed r1 now1 a)) with (a_responses a).
  rewrite C. split; [reflexivity|]. rewrite Q2. split; reflexivity.
Qed.

(** Alice completes assessment 1 at time 700 and again at time 800. *)
Lemma complete_twice_same_result_witness :
  exists a db2,
    query_assessment answered_db 1 (u_id alice) = Some a
    /\ compute_scores example_catalog (default ∅ (a_responses a)) = Ok example_result
    /\ complete_assessment example_catalog 1 alice 800 (snd first_completion)
       = (Ok example_result, db2)
    /\ (stored_results <$> query_assessment (snd first_completion) 1 (u_id alice))
       = Some (results_of example_result)
    /\ (stored_results <$> query_assessment db2 1 (u_id alice))
       = Some (results_of example_result).
Proof.
  apply (complete_twice_same_result example_catalog 1 alice 700 800 answered_db).
  vm_compute. reflexivity.
Defined.

(** * Further properties of the scoring code *)

(** ** Only the answers to catalog questions count *)

Lemma get_answer_effective (responses : gmap string (gmap string ResponseEntry))
    (c : Category) (q : Question) :
  get_answer (get_cat_responses responses (c_id c)) (q_id q)
  = effective_answer responses c q.
Proof. apply get_answer_stored. Qed.

Lemma score_question_answer (responses : gmap string (gmap string ResponseEntry))
    (c : Category) (st : Q * Q) (q : Question) :
  score_question (get_cat_responses responses (c_id c)) st q
  = (let '(max_score, actual_score) := st in
     let a := effective_answer responses c q in
     if decide (a = "yes")
     then (max_score + 2 * impact_of q, actual_score + 2 * impact_of q)
     else if decide (a = "partial")
          then (max_score + 2 * impact_of q, actual_score + 1 * impact_of q)
          else (max_score + 2 * impact_of q, actual_score)).
Proof.
  unfold score_question. rewrite get_answer_effective. reflexivity.
Qed.

Lemma score_questions_same_answers (r1 r2 : gmap string (gmap string ResponseEntry))
    (c : Category) (qs : list Question) (st : Q * Q) :
  Forall (fun q => effective_answer r1 c q = effective_answer r2 c q) qs ->
  fold_left (score_question (get_cat_responses r1 (c_id c))) qs st
  = fold_left (score_question (get_cat_responses r2 (c_id c))) qs st.
Proof.
  intros H. revert st. induction H as [|q qs Hq _ IH]; intros st; [reflexivity|].
  cbn [fold_left]. rewrite !score_question_answer, Hq. apply IH.
Qed.

Lemma category_candidates_same_answers
    (r1 r2 : gmap string (gmap string ResponseEntry)) (c : Category) :
  Forall (fun q => effective_answer r1 c q = effective_answer r2 c q)
         (c_questions c) ->
  category_candidates r1 c = category_candidates r2 c.
Proof.
  unfold category_candidates.
  induction 1 as [|q qs Hq _ IH]; cbn [flat_map]; [reflexivity|].
  cbv zeta. rewrite Hq, IH. reflexivity.
Qed.

Lemma score_categories_same_answers
    (r1 r2 : gmap string (gmap string ResponseEntry)) (catalog : list Category)
    (st : ScoreState) :
  answers_related eq catalog r1 r2 ->
  for_each (score_category r1) catalog st = for_each (score_category r2) catalog st.
Proof.
  unfold answers_related. intros H. revert st.
  induction H as [|c catalog Hc _ IH]; intros st; [reflexivity|].
  cbn [for_each].
  assert (E : score_category r1 st c = score_category r2 st c).
  { unfold score_category, category_raw_pct, score_questions.
    rewrite (score_questions_same_answers r1 r2 c _ _ Hc). reflexivity. }
  rewrite E. destruct (score_category r2 st c); cbn; [apply IH|reflexivity].
Qed.

(** X1: the result depends only on the (defaulted) answers to the questions
    of the catalog: two responses maps that agree on them, whatever else they
    store under unknown category or question ids, give the same result. *)
Theorem scoring_ignores_unknown_keys (catalog : list Category)
    (r1 r2 : gmap string (gmap string ResponseEntry)) :
  answers_related eq catalog r1 r2 ->
  compute_scores catalog r1 = compute_scores catalog r2.
Proof.
  intros H. unfold compute_scores.
  rewrite (score_categories_same_answers r1 r2 catalog _ H).
  assert (E : candidate_recommendations catalog r1
              = candidate_recommendations catalog r2).
  { rewrite !candidate_recommendations_stated. unfold stated_candidates.
    unfold answers_related in H.
    induction H as [|c cs Hc _ IH]; cbn [flat_map]; [reflexivity|].
    rewrite IH, (category_candidates_same_answers r1 r2 c Hc). reflexivity. }
  rewrite E. reflexivity.
Qed.

(** The worked example with an extra question "zz" and an extra category "9". *)
Lemma scoring_ignores_unknown_keys_witness :
  compute_scores example_catalog noisy_responses
  = compute_scores example_catalog example_responses.
Proof.
  apply (scoring_ignores_unknown_keys example_catalog noisy_responses
           example_responses).
  repeat constructor.
Defined.

(** ** The returned recommendations are the top candidates *)




Lemma all_yes_candidates (catalog : list Category)
    (responses : gmap string (gmap string ResponseEntry)) :
  every_answer (eq "yes") catalog responses ->
  stated_candidates catalog responses = [].
Proof.
  unfold every_answer, stated_candidates.
  induction 1 as [|c cs Hc _ IH]; cbn [flat_map]; [reflexivity|].
  rewrite IH, app_nil_r. unfold category_candidates.
  induction Hc as [|q qs Hq _ IHq]; cbn [flat_map]; [reflexivity|].
  cbv zeta. rewrite IHq, <- Hq. reflexivity.
Qed.

(** X4: when every question of every category is answered "yes", there is no
    candidate and the recommendation list is empty. *)
Theorem all_yes_no_recommendations (catalog : list Category)
    (responses : gmap string (gmap string ResponseEntry)) :
  every_answer (eq "yes") catalog responses ->
  exists r, compute_scores catalog responses = Ok r
    /\ candidate_recommendations catalog responses = []
    /\ res_recommendations r = [].
Proof.
  intros Hyes.
  destruct (compute_scores_spec catalog responses) as (r & E & _ & _ & Hrec & _).
  pose proof (all_yes_candidates catalog responses Hyes) as Hc.
  rewrite <- candidate_recommendations_stated in Hc.
  exists r. split; [exact E|]. split; [exact Hc|].
  rewrite Hrec, Hc. reflexivity.
Qed.

Lemma all_yes_no_recommendations_witness :
  exists r, compute_scores example_catalog all_yes_responses = Ok r
    /\ candidate_recommendations example_catalog all_yes_responses = []
    /\ res_recommendations r = [].
Proof.
  apply (all_yes_no_recommendations example_catalog all_yes_responses).
  repeat constructor.
Defined.

(** * Further properties of the handlers *)

(** ** Primary keys *)

Lemma next_id_above {X : Type} (id : X -> Z) (table : list X) (x : X) :
  In x table -> (id x < next_id id table)%Z.
Proof.
  unfold next_id. induction table as [|y table IH]; intros H; [destruct H|].
  cbn [map fold_right]. destruct H as [<-|H]; [lia|]. specialize (IH H). lia.
Qed.

Lemma next_id_fresh {X : Type} (id : X -> Z) (table : list X) :
  next_id id table ∉ map id table.
Proof.
  intros H. apply list_elem_of_In, in_map_iff in H as (x & E & Hx).
  pose proof (next_id_above id table x Hx). lia.
Qed.

Lemma NoDup_snoc_fresh {X : Type} (id : X -> Z) (table : list X) (x : X) :
  NoDup (map id table) -> id x ∉ map id table -> NoDup (map id (table ++ [x])).
Proof.
  intros Hnd Hx. rewrite map_app. apply NoDup_app. split; [exact Hnd|].
  split; [|apply NoDup_singleton].
  intros k Hk Hk'. cbn in Hk'. apply list_elem_of_singleton in Hk'. subst k.
  contradiction.
Qed.

Lemma find_app_fresh {X : Type} (p : X -> bool) (l : list X) (x : X) :
  (forall y, In y l -> p y = false) -> p x = true -> find p (l ++ [x]) = Some x.
Proof.
  induction l as [|y l IH]; intros Hl Hx; cbn [app find].
  - rewrite Hx. reflexivity.
  - rewrite (Hl y (or_introl eq_refl)). apply IH; [|exact Hx].
    intros z Hz. apply Hl. right. exact Hz.
Qed.

Lemma find_None_all {X : Type} (p : X -> bool) (l : list X) :
  find p l = None -> forall y, In y l -> p y = false.
Proof. intros H y Hy. apply (find_none p l H y Hy). Qed.

(** ** Registration and login *)

Lemma query_user_by_email_None (db : Db) (email : string) :
  query_user_by_email db email = None -> email ∉ map u_email (users db).
Proof.
  unfold query_user_by_email. intros H Hin.
  apply list_elem_of_In, in_map_iff in Hin as (u & E & Hu).
  pose proof (find_none _ _ H u Hu) as N. cbn in N.
  apply bool_decide_eq_false in N. contradiction.
Qed.

Lemma query_user_by_email_Some (db : Db) (email : string) (u : User) :
  query_user_by_email db email = Some u -> u ∈ users db /\ u_email u = email.
Proof.
  unfold query_user_by_email. intros H. apply find_some in H as [Hin Hp].
  split; [apply list_elem_of_In, Hin|]. apply bool_decide_eq_true in Hp. exact Hp.
Qed.

(** X6: a successful registration appends exactly one user, whose id and
    email were not in the user table, with the hashed (not the submitted)
    password; it leaves the existing users and all assessments as they were,
    logs one event, and issues a token for the new user's id that expires 30
    days (2592000 seconds) later. *)
Theorem register_adds_one_user (pwd_hash : string -> string)
    (user_data : UserCreate) (now : Z) (db db' : Db) (r : AuthResponse) :
  register pwd_hash user_data now db = (Ok r, db') ->
  exists u,
    users db' = (users db ++ [u])%list
    /\ u_email u = uc_email user_data
    /\ u_hashed_password u = pwd_hash (uc_password user_data)
    /\ (u_id u ∉ map u_id (users db))
    /\ (u_email u ∉ map u_email (users db))
    /\ assessments db' = assessments db
    /\ length (analytics_events db') = S (length (analytics_events db))
    /\ ar_token r = {| tok_sub := u_id u; tok_exp := (now + 2592000)%Z |}
    /\ ar_email r = uc_email user_data.
Proof.
  unfold register.
  destruct (query_user_by_email db (uc_email user_data)) eqn:Q; [discriminate|].
  intros [= <- <-]. eexists. cbn.
  split; [reflexivity|]. split; [reflexivity|]. split; [reflexivity|].
  split; [apply next_id_fresh|].
  split; [apply query_user_by_email_None, Q|].
  split; [reflexivity|]. split; [rewrite length_app; cbn; lia|].
  split; reflexivity.
Qed.

Lemma register_adds_one_user_witness :
  exists u,
    users (snd (register example_hash alice_data 100 empty_db))
      = (users empty_db ++ [u])%list
    /\ u_email u = uc_email alice_data
    /\ u_hashed_password u = example_hash (uc_password alice_data)
    /\ (u_id u ∉ map u_id (users empty_db))
    /\ (u_email u ∉ map u_email (users empty_db))
    /\ assessments (snd (register example_hash alice_data 100 empty_db))
       = assessments empty_db
    /\ length (analytics_events (snd (register example_hash alice_data 100 empty_db)))
       = S (length (analytics_events empty_db))
    /\ ar_token {| ar_message := "Registration successful";
                   ar_token := create_access_token 1 100;
                   ar_email := "alice@example.org"; ar_name := Some "Alice" |}
       = {| tok_sub := u_id u; tok_exp := (100 + 2592000)%Z |}
    /\ ar_email {| ar_message := "Registration successful";
                   ar_token := create_access_token 1 100;
                   ar_email := "alice@example.org"; ar_name := Some "Alice" |}
       = uc_email alice_data.
Proof.
  apply (register_adds_one_user example_hash alice_data 100 empty_db).
  reflexivity.
Defined.

(** X7: a failed login tells nothing and changes nothing: for an unknown
    email and for a known email with a password whose hash differs from the
    stored one, the result is the same 401 "Invalid credentials" and the
    store is unchanged; a login succeeds only for a stored user with that
    email and that password hash, and its token is for that user's id. *)
Theorem login_checks_credentials (pwd_hash : string -> string)
    (email password : string) (now : Z) (db : Db) :
  (query_user_by_email db email = None
   \/ (exists u, query_user_by_email db email = Some u
                 /\ pwd_hash password <> u_hashed_password u) ->
   login pwd_hash email password now db
     = (Raise (HTTPException 401 "Invalid credentials"), db))
  /\ (forall r db', login pwd_hash email password now db = (Ok r, db') ->
        exists u, u ∈ users db /\ u_email u = email
          /\ u_hashed_password u = pwd_hash password
          /\ tok_sub (ar_token r) = u_id u
          /\ ar_email r = email).
Proof.
  unfold login. split.
  - intros [Q|(u & Q & N)]; rewrite Q; [reflexivity|].
    rewrite bool_decide_eq_false_2 by exact N. reflexivity.
  - intros r db'.
    destruct (query_user_by_email db email) as [u|] eqn:Q; [|discriminate].
    destruct (bool_decide (pwd_hash password = u_hashed_password u)) eqn:B;
      [|discriminate].
    intros [= <- <-]. apply bool_decide_eq_true in B.
    apply query_user_by_email_Some in Q as [Hin He].
    exists u. cbn. auto.
Qed.

(** Bob's password for Alice's account, and an unknown email. *)
Lemma login_checks_credentials_witness :
  login example_hash "alice@example.org" "battery staple" 500 two_user_db
    = (Raise (HTTPException 401 "Invalid credentials"), two_user_db)
  /\ login example_hash "carol@example.org" "battery staple" 500 two_user_db
    = (Raise (HTTPException 401 "Invalid credentials"), two_user_db).
Proof.
  split.
  - apply (proj1 (login_checks_credentials example_hash "alice@example.org"
                    "battery staple" 500 two_user_db)).
    right. exists alice. split; [reflexivity|discriminate].
  - apply (proj1 (login_checks_credentials example_hash "carol@example.org"
                    "battery staple" 500 two_user_db)).
    left. reflexivity.
Defined.

(** X8: after a successful registration, a login with the same email and
    password succeeds, whatever the hash function, with a token for the
    registered user's id; the store gains one event and keeps its users'
    ids, emails and password hashes. *)
Theorem register_then_login (pwd_hash : string -> string)
    (user_data : UserCreate) (now later : Z) (db db1 : Db) (r : AuthResponse) :
  register pwd_hash user_data now db = (Ok r, db1) ->
  exists r' db2,
    login pwd_hash (uc_email user_data) (uc_password user_data) later db1
      = (Ok r', db2)
    /\ tok_sub (ar_token r') = tok_sub (ar_token r)
    /\ tok_exp (ar_token r') = (later + 2592000)%Z
    /\ map u_email (users db2) = map u_email (users db1)
    /\ assessments db2 = assessments db1.
Proof.
  unfold register.
  destruct (query_user_by_email db (uc_email user_data)) eqn:Q; [discriminate|].
  intros [= <- <-]. unfold login.
  match goal with |- context [(users db ++ [?x])%list] => set (u := x) end.
  match goal with
  | |- context [query_user_by_email ?d ?e] =>
      assert (Q1 : query_user_by_email d e = Some u)
  end.
  { unfold query_user_by_email. cbn [add_event users].
    apply find_app_fresh; [|cbn; apply bool_decide_eq_true_2; reflexivity].
    apply find_None_all. exact Q. }
  rewrite Q1. rewrite bool_decide_eq_true_2 by reflexivity.
  do 2 eexists. split; [reflexivity|]. cbn [ar_token tok_sub tok_exp
    create_access_token u u_id snd add_event users assessments].
  split; [reflexivity|]. split; [reflexivity|]. split; [|reflexivity].
  generalize (users db ++ [u])%list as l.
  induction l as [|x l IH]; cbn; [reflexivity|].
  destruct (bool_decide (u_email x = uc_email user_data)); cbn; congruence.
Qed.

Lemma register_then_login_witness :
  exists r' db2,
    login example_hash (uc_email alice_data) (uc_password alice_data) 150
          (snd (register example_hash alice_data 100 empty_db))
      = (Ok r', db2)
    /\ tok_sub (ar_token r')
       = tok_sub (ar_token {| ar_message := "Registration successful";
                              ar_token := create_access_token 1 100;
                              ar_email := "alice@example.org";
                              ar_name := Some "Alice" |})
    /\ tok_exp (ar_token r') = (150 + 2592000)%Z
    /\ map u_email (users db2)
       = map u_email (users (snd (register example_hash alice_data 100 empty_db)))
    /\ assessments db2
       = assessments (snd (register example_hash alice_data 100 empty_db)).
Proof.
  apply (register_then_login example_hash alice_data 100 150 empty_db).
  reflexivity.
Defined.

(** ** Identity resolution *)

Lemma bearer_prefix (t : string) : String.prefix "Bearer " ("Bearer " +:+ t) = true.
Proof. cbn. destruct t; reflexivity. Qed.

Lemma bearer_drop (t : string) : string_drop 7 ("Bearer " +:+ t) = t.
Proof. reflexivity. Qed.

Lemma auth_token_of_bearer (t : string) (cookie : option string) :
  auth_token_of (Some ("Bearer " +:+ t)) cookie = Some t.
Proof.
  unfold auth_token_of.
  change (default EmptyString (Some ("Bearer " +:+ t))) with ("Bearer " +:+ t).
  rewrite bearer_prefix, bearer_drop. reflexivity.
Qed.

Lemma auth_token_of_cookie (authorization cookie : option string) :
  String.prefix "Bearer " (default EmptyString authorization) = false ->
  auth_token_of authorization cookie = auth_token_of None cookie.
Proof.
  unfold auth_token_of. intros ->. rewrite andb_false_r. reflexivity.
Qed.

Lemma get_current_user_bearer (jwt_decode : string -> Z -> option (option Z))
    (t : string) (cookie : option string) (now : Z) (db : Db) :
  get_current_user jwt_decode (Some ("Bearer " +:+ t)) cookie now db
  = get_current_user jwt_decode None (Some t) now db.
Proof.
  unfold get_current_user.
  rewrite auth_token_of_bearer. unfold auth_token_of. cbn [truthy andb].
  destruct t; reflexivity.
Qed.

Lemma truthy_Some (o : option string) :
  truthy o = true -> exists t, o = Some t /\ t <> EmptyString.
Proof.
  destruct o as [[|a t]|]; try discriminate. intros _. eexists. split; [reflexivity|].
  discriminate.
Qed.

Section IdentityFacts.

Variable jwt_decode : string -> Z -> option (option Z).

(** X9: identity is resolved from the Authorization header when it starts
    with "Bearer ", and then the cookie is never consulted, not even when the
    bearer token is empty; any other header, or none, leaves the decision to
    the cookie; without header and cookie the caller is anonymous. *)
Theorem bearer_header_shadows_cookie (t : string) (h : string)
    (cookie : option string) (now : Z) (db : Db) :
  get_current_user jwt_decode (Some ("Bearer " +:+ t)) cookie now db
    = get_current_user jwt_decode None (Some t) now db
  /\ (String.prefix "Bearer " h = false ->
      get_current_user jwt_decode (Some h) cookie now db
        = get_current_user jwt_decode None cookie now db)
  /\ get_current_user jwt_decode None None now db = None.
Proof.
  split; [apply get_current_user_bearer|]. unfold get_current_user. split.
  - intros P. rewrite (auth_token_of_cookie (Some h) cookie P). reflexivity.
  - reflexivity.
Qed.

(** X10: a caller is resolved to a user only through a token that decodes,
    at the time of the request, to the id of a user of the store; the
    resolved user is that stored user. *)
Theorem resolved_user_is_token_subject (authorization cookie : option string)
    (now : Z) (db : Db) (u : User) :
  get_current_user jwt_decode authorization cookie now db = Some u ->
  u ∈ users db
  /\ exists t, t <> EmptyString
       /\ auth_token_of authorization cookie = Some t
       /\ jwt_decode t now = Some (Some (u_id u)).
Proof.
  unfold get_current_user.
  destruct (truthy (auth_token_of authorization cookie)) eqn:T; [|discriminate].
  apply truthy_Some in T as (t & Et & Nt). rewrite Et.
  change (default EmptyString (Some t)) with t. cbn [negb].
  destruct (jwt_decode t now) as [[user_id|]|] eqn:D; try discriminate.
  unfold query_user_by_id. intros F. apply find_some in F as [Hin Hp].
  apply bool_decide_eq_true in Hp. subst user_id.
  split; [apply list_elem_of_In, Hin|]. exists t. auto.
Qed.

(** X11: a request whose token is missing, does not decode (malformed,
    wrongly signed, expired), carries no subject, or names no stored user is
    answered 401 "Not authenticated" by every endpoint that requires
    authentication, and the store is unchanged. *)
Theorem unauthenticated_request_rejected {A : Type}
    (handler : User -> Db -> result A * Db)
    (authorization cookie : option string) (now : Z) (db : Db) :
  (truthy (auth_token_of authorization cookie) = false
   \/ exists t, auth_token_of authorization cookie = Some t
        /\ (jwt_decode t now = None \/ jwt_decode t now = Some None
            \/ exists user_id, jwt_decode t now = Some (Some user_id)
                 /\ user_id ∉ map u_id (users db))) ->
  with_auth jwt_decode handler authorization cookie now db
    = (Raise (HTTPException 401 "Not authenticated"), db).
Proof.
  intros H.
  assert (G : get_current_user jwt_decode authorization cookie now db = None).
  { unfold get_current_user. destruct H as [T|(t & Et & D)].
    - rewrite T. reflexivity.
    - destruct (negb (truthy (auth_token_of authorization cookie)));
        [reflexivity|].
      rewrite Et. change (default EmptyString (Some t)) with t.
      destruct D as [D|[D|(user_id & D & Hn)]]; rewrite D; try reflexivity.
      unfold query_user_by_id.
      destruct (find _ (users db)) as [u|] eqn:F; [|reflexivity].
      apply find_some in F as [Hin Hp]. apply bool_decide_eq_true in Hp.
      exfalso. apply Hn. rewrite <- Hp.
      apply (list_elem_of_fmap_2 u_id), list_elem_of_In, Hin. }
  unfold with_auth. rewrite G. reflexivity.
Qed.

End IdentityFacts.

(** A basic-auth header with Alice's cookie resolves like the cookie alone. *)
Lemma bearer_header_shadows_cookie_witness :
  get_current_user example_jwt_decode (Some "Basic abc") (Some "token-of-1") 500
                   two_user_db
  = get_current_user example_jwt_decode None (Some "token-of-1") 500 two_user_db.
Proof.
  apply (proj1 (proj2 (bearer_header_shadows_cookie example_jwt_decode
                         EmptyString "Basic abc" (Some "token-of-1") 500
                         two_user_db))).
  reflexivity.
Defined.

(** Alice's bearer token, before it expires. *)
Lemma resolved_user_is_token_subject_witness :
  alice ∈ users two_user_db
  /\ exists t, t <> EmptyString
       /\ auth_token_of (Some "Bearer token-of-1") None = Some t
       /\ example_jwt_decode t 500 = Some (Some (u_id alice)).
Proof.
  apply (resolved_user_is_token_subject example_jwt_decode
           (Some "Bearer token-of-1") None 500 two_user_db alice).
  reflexivity.
Defined.

(** Alice's token after it has expired, on the endpoint that reads her
    assessment. *)
Lemma unauthenticated_request_rejected_witness :
  with_auth example_jwt_decode (get_assessment 1) None (Some "token-of-1") 2000
            answered_db
  = (Raise (HTTPException 401 "Not authenticated"), answered_db).
Proof.
  apply (unauthenticated_request_rejected example_jwt_decode (get_assessment 1)
           None (Some "token-of-1") 2000 answered_db).
  right. exists "token-of-1". split; [reflexivity|]. left. reflexivity.
Defined.

(** ** Creating and reading an assessment *)

(** X13: [create_assessment] always succeeds; the new assessment gets an id
    no stored assessment has, is appended to the table, belongs to the
    caller, is "in_progress" with an empty responses map and no results; the
    caller reads it back with [get_assessment], and any user with another id
    gets 404 for it. *)
Theorem created_assessment_is_readable (program_info : ProgramInfo)
    (user : User) (now : Z) (db : Db) :
  exists id db1 a,
    create_assessment program_info user now db = (Ok id, db1)
    /\ (id ∉ map a_id (assessments db))
    /\ assessments db1 = (assessments db ++ [a])%list
    /\ users db1 = users db
    /\ a_id a = id /\ a_user_id a = u_id user
    /\ a_program_name a = pi_program_name program_info
    /\ a_status a = "in_progress" /\ a_responses a = Some ∅
    /\ stored_results a = (None, None, None)
    /\ get_assessment id user db1 = (Ok a, db1)
    /\ (forall other, u_id other <> u_id user ->
          get_assessment id other db1
            = (Raise (HTTPException 404 "Assessment not found"), db1)).
Proof.
  unfold create_assessment.
  match goal with |- context [(assessments db ++ [?x])%list] => set (a := x) end.
  do 2 eexists. exists a. split; [reflexivity|].
  split; [apply next_id_fresh|]. repeat (split; [reflexivity|]).
  assert (Hold : forall uid y, In y (assessments db) ->
                   owned_by (next_id a_id (assessments db)) uid y = false).
  { intros uid y Hy. unfold owned_by.
    rewrite bool_decide_eq_false_2; [reflexivity|].
    pose proof (next_id_above a_id (assessments db) y Hy). lia. }
  split.
  - unfold get_assessment, query_assessment. cbn [add_event assessments a_id a].
    rewrite (find_app_fresh _ _ a (Hold (u_id user))); [reflexivity|].
    apply owned_by_true. split; reflexivity.
  - intros other Hne. unfold get_assessment.
    rewrite query_assessment_None; [reflexivity|].
    cbn [add_event assessments a_id a]. intros b Hb [Hid Hu].
    apply elem_of_app in Hb as [Hb|Hb].
    + apply list_elem_of_In in Hb.
      pose proof (next_id_above a_id (assessments db) b Hb). lia.
    + apply list_elem_of_singleton in Hb. subst b. cbn in Hu. congruence.
Qed.

(** ** Writing a row back *)

Lemma update_first_map {X Y : Type} (p : X -> bool) (f : X -> X) (g : X -> Y)
    (l : list X) :
  (forall x, g (f x) = g x) -> map g (update_first p f l) = map g l.
Proof.
  intros H. induction l as [|x l IH]; cbn [update_first map]; [reflexivity|].
  destruct (p x); cbn [map]; [rewrite H|rewrite IH]; reflexivity.
Qed.

Lemma update_first_lookup_other {X : Type} (p : X -> bool) (f : X -> X)
    (l : list X) (i : nat) (b : X) :
  l !! i = Some b -> p b = false -> update_first p f l !! i = Some b.
Proof.
  revert i. induction l as [|x l IH]; intros i Hi Hp; [discriminate|].
  cbn [update_first]. destruct i as [|i]; cbn in Hi |- *.
  - injection Hi as ->. rewrite Hp. reflexivity.
  - destruct (p x); cbn; [exact Hi|apply IH; assumption].
Qed.

Lemma query_after_update (db : Db) (assessment_id : Z) (user : User)
    (a : Assessment) (f : Assessment -> Assessment) :
  (forall x, owned_by assessment_id (u_id user) (f x)
             = owned_by assessment_id (u_id user) x) ->
  query_assessment db assessment_id (u_id user) = Some a ->
  query_assessment
    {| users := users db;
       assessments := update_first (owned_by assessment_id (u_id user)) f
                                   (assessments db);
       analytics_events := analytics_events db |}
    assessment_id (u_id user) = Some (f a).
Proof.
  unfold query_assessment. cbn [assessments]. intros Hf Q.
  apply find_update_first; [exact Q|].
  rewrite Hf. apply find_some in Q as [_ Hp]. exact Hp.
Qed.

(** ** Response updates: what changes and what does not *)

Lemma owned_by_save_responses (assessment_id user_id : Z)
    (stored : option (gmap string (gmap string ResponseEntry)))
    (responses : gmap string (gmap string ResponseEntry)) (now : Z)
    (x : Assessment) :
  owned_by assessment_id user_id (save_responses stored responses now x)
  = owned_by assessment_id user_id x.
Proof. unfold save_responses. destruct (truthy_responses stored); reflexivity. Qed.

Lemma save_responses_keeps {Y : Type} (g : Assessment -> Y)
    (stored : option (gmap string (gmap string ResponseEntry)))
    (responses : gmap string (gmap string ResponseEntry)) (now : Z) :
  (forall c n x, g (set_responses c n x) = g x) ->
  (forall n x, g (set_updated_at n x) = g x) ->
  forall x, g (save_responses stored responses now x) = g x.
Proof.
  intros H1 H2 x. unfold save_responses.
  destruct (truthy_responses stored); [apply H2|apply H1].
Qed.

(** X14: a successful response update rewrites, on the one assessment it
    found, [updated_at] and, only when the stored responses were [None] or
    empty, the responses, which then become the submitted map.  When the
    stored map was not empty the stored responses stay as they were: the
    submission is not saved.  [get_assessment] then returns that row.  Users,
    the analytics log, every other row, and the status, results and
    completion time of every assessment stay as they were. *)
Theorem update_saves_only_into_empty_responses (assessment_id : Z)
    (responses : gmap string (gmap string ResponseEntry))
    (user : User) (now : Z) (db db1 : Db) (m : string) :
  update_responses assessment_id responses user now db = (Ok m, db1) ->
  exists a a1,
    query_assessment db assessment_id (u_id user) = Some a
    /\ get_assessment assessment_id user db1 = (Ok a1, db1)
    /\ a_responses a1
       = (if truthy_responses (a_responses a) then a_responses a else Some responses)
    /\ a_updated_at a1 = now
    /\ assessment_identity a1 = assessment_identity a
    /\ assessment_outcome a1 = assessment_outcome a
    /\ users db1 = users db
    /\ analytics_events db1 = analytics_events db
    /\ map assessment_identity (assessments db1)
       = map assessment_identity (assessments db)
    /\ map assessment_outcome (assessments db1)
       = map assessment_outcome (assessments db)
    /\ (forall i b, assessments db !! i = Some b ->
          owned_by assessment_id (u_id user) b = false ->
          assessments db1 !! i = Some b).
Proof.
  unfold update_responses.
  destruct (query_assessment db assessment_id (u_id user)) as [a|] eqn:Q;
    [|discriminate].
  intros [= <- <-]. exists a.
  exists (save_responses (a_responses a) responses now a).
  split; [reflexivity|]. split.
  { unfold get_assessment.
    rewrite (query_after_update db assessment_id user a
               (save_responses (a_responses a) responses now)
               (owned_by_save_responses _ _ _ _ _) Q).
    reflexivity. }
  split; [apply save_responses_stored; reflexivity|].
  split; [apply save_responses_identity|].
  split; [apply (save_responses_keeps assessment_identity); reflexivity|].
  split; [apply (save_responses_keeps assessment_outcome); reflexivity|].
  cbn [users analytics_events assessments]. repeat (split; [reflexivity|]).
  split; [apply update_first_map, (save_responses_keeps assessment_identity);
          reflexivity|].
  split; [apply update_first_map, (save_responses_keeps assessment_outcome);
          reflexivity|].
  intros i b Hi Hb. apply update_first_lookup_other; assumption.
Qed.

(** Alice resubmits only "q1" after her assessment was completed: the row
    keeps the two answers it had. *)
Lemma update_saves_only_into_empty_responses_witness :
  exists a a1,
    query_assessment (snd first_completion) 1 (u_id alice) = Some a
    /\ get_assessment 1 alice
         (snd (update_responses 1 q1_only_update alice 900 (snd first_completion)))
       = (Ok a1,
          snd (update_responses 1 q1_only_update alice 900 (snd first_completion)))
    /\ a_responses a1
       = (if truthy_responses (a_responses a) then a_responses a
          else Some q1_only_update)
    /\ a_updated_at a1 = 900%Z
    /\ assessment_identity a1 = assessment_identity a
    /\ assessment_outcome a1 = assessment_outcome a
    /\ users (snd (update_responses 1 q1_only_update alice 900 (snd first_completion)))
       = users (snd first_completion)
    /\ analytics_events
         (snd (update_responses 1 q1_only_update alice 900 (snd first_completion)))
       = analytics_events (snd first_completion)
    /\ map assessment_identity
         (assessments
            (snd (update_responses 1 q1_only_update alice 900 (snd first_completion))))
       = map assessment_identity (assessments (snd first_completion))
    /\ map assessment_outcome
         (assessments
            (snd (update_responses 1 q1_only_update alice 900 (snd first_completion))))
       = map assessment_outcome (assessments (snd first_completion))
    /\ (forall i b, assessments (snd first_completion) !! i = Some b ->
          owned_by 1 (u_id alice) b = false ->
          assessments
            (snd (update_responses 1 q1_only_update alice 900 (snd first_completion)))
            !! i = Some b).
Proof.
  apply (update_saves_only_into_empty_responses 1 q1_only_update alice 900
           (snd first_completion) _ "Responses saved").
  vm_compute. reflexivity.
Defined.

(** X15: of two successive response updates of an assessment at most one is
    saved.  If the assessment already held answers, both submissions are
    lost; otherwise the first one is stored as it is and the second one is
    lost, unless the first was empty, in which case the second is stored. *)
Theorem later_updates_not_saved (assessment_id : Z)
    (r1 r2 : gmap string (gmap string ResponseEntry))
    (user : User) (now1 now2 : Z) (db db1 : Db) (m : string) :
  update_responses assessment_id r1 user now1 db = (Ok m, db1) ->
  exists a db2,
    query_assessment db assessment_id (u_id user) = Some a
    /\ update_responses assessment_id r2 user now2 db1 = (Ok "Responses saved", db2)
    /\ (a_responses <$> query_assessment db2 assessment_id (u_id user))
       = Some (if truthy_responses (a_responses a) then a_responses a
               else if bool_decide (r1 = ∅) then Some r2 else Some r1).
Proof.
  unfold update_responses at 1.
  destruct (query_assessment db assessment_id (u_id user)) as [a|] eqn:Q;
    [|discriminate].
  intros [= <- <-].
  pose proof (query_after_update db assessment_id user a
                (save_responses (a_responses a) r1 now1)
                (owned_by_save_responses _ _ _ _ _) Q) as Q1.
  set (db1 := {| users := users db; assessments := _;
                 analytics_events := analytics_events db |}) in *.
  set (a1 := save_responses (a_responses a) r1 now1 a) in *.
  pose proof (query_after_update db1 assessment_id user a1
                (save_responses (a_responses a1) r2 now2)
                (owned_by_save_responses _ _ _ _ _) Q1) as Q2.
  assert (U2 : update_responses assessment_id r2 user now2 db1
               = (Ok "Responses saved",
                  {| users := users db1;
                     assessments :=
                       update_first (owned_by assessment_id (u_id user))
                         (save_responses (a_responses a1) r2 now2)
                         (assessments db1);
                     analytics_events := analytics_events db1 |})).
  { unfold update_responses. rewrite Q1. reflexivity. }
  exists a. eexists. split; [reflexivity|]. split; [exact U2|].
  rewrite Q2. cbn [fmap option_fmap option_map]. f_equal.
  rewrite (save_responses_stored _ r2 now2 a1 eq_refl).
  unfold a1. rewrite (save_responses_stored _ r1 now1 a eq_refl).
  destruct (truthy_responses (a_responses a)) eqn:T.
  - rewrite T. reflexivity.
  - cbn [truthy_responses]. destruct (bool_decide (r1 = ∅)); reflexivity.
Qed.

(** Alice answers both questions, then resubmits only "q1". *)
Lemma later_updates_not_saved_witness :
  exists a db2,
    query_assessment two_user_db 1 (u_id alice) = Some a
    /\ update_responses 1 q1_only_update alice 500 answered_db
       = (Ok "Responses saved", db2)
    /\ (a_responses <$> query_assessment db2 1 (u_id alice))
       = Some (if truthy_responses (a_responses a) then a_responses a
               else if bool_decide (example_responses = ∅) then Some q1_only_update
                    else Some example_responses).
Proof.
  apply (later_updates_not_saved 1 example_responses q1_only_update alice 400 500
           two_user_db answered_db "Responses saved").
  reflexivity.
Defined.

(** ** Completion: what changes and what does not *)

(** X16: a successful completion marks the one assessment it found
    "completed" with the returned results and the request time, and appends
    exactly one "assessment_completed" event carrying the caller's id, the
    assessment id and the overall score.  The users, the stored responses of
    every assessment and every row it did not select stay as they were. *)
Theorem complete_effects (catalog : list Category) (assessment_id : Z)
    (user : User) (now : Z) (db db1 : Db) (r : CompleteResult) :
  complete_assessment catalog assessment_id user now db = (Ok r, db1) ->
  users db1 = users db
  /\ (exists ev, analytics_events db1 = (analytics_events db ++ [ev])%list
        /\ e_event_type ev = "assessment_completed"
        /\ e_user_id ev = Some (u_id user)
        /\ e_assessment_id ev = Some assessment_id
        /\ e_event_data ev = Some (res_overall_score r)
        /\ e_created_at ev = now)
  /\ (assessment_outcome <$> query_assessment db1 assessment_id (u_id user))
     = Some ("completed", results_of r, Some now)
  /\ map assessment_identity (assessments db1)
     = map assessment_identity (assessments db)
  /\ map a_responses (assessments db1) = map a_responses (assessments db)
  /\ (forall i b, assessments db !! i = Some b ->
        owned_by assessment_id (u_id user) b = false ->
        assessments db1 !! i = Some b).
Proof.
  unfold complete_assessment.
  destruct (query_assessment db assessment_id (u_id user)) as [a|] eqn:Q;
    [|discriminate].
  destruct (compute_scores catalog (default ∅ (a_responses a))) as [r0|e] eqn:C;
    [|discriminate].
  intros [= -> <-].
  rewrite (query_after_completion db assessment_id user a r now _ Q).
  apply query_assessment_Some in Q as (_ & Hid & _).
  cbn [add_event users analytics_events assessments].
  split; [reflexivity|]. split.
  { eexists. split; [reflexivity|]. cbn. rewrite Hid. repeat split; reflexivity. }
  split; [reflexivity|].
  split; [apply update_first_map; reflexivity|].
  split; [apply update_first_map; reflexivity|].
  intros i b Hi Hb. apply update_first_lookup_other; assumption.
Qed.

Lemma complete_effects_witness :
  users (snd first_completion) = users answered_db
  /\ (exists ev, analytics_events (snd first_completion)
                 = (analytics_events answered_db ++ [ev])%list
        /\ e_event_type ev = "assessment_completed"
        /\ e_user_id ev = Some (u_id alice)
        /\ e_assessment_id ev = Some 1%Z
        /\ e_event_data ev = Some (res_overall_score example_result)
        /\ e_created_at ev = 700%Z)
  /\ (assessment_outcome <$> query_assessment (snd first_completion) 1 (u_id alice))
     = Some ("completed", results_of example_result, Some 700%Z)
  /\ map assessment_identity (assessments (snd first_completion))
     = map assessment_identity (assessments answered_db)
  /\ map a_responses (assessments (snd first_completion))
     = map a_responses (assessments answered_db)
  /\ (forall i b, assessments answered_db !! i = Some b ->
        owned_by 1 (u_id alice) b = false ->
        assessments (snd first_completion) !! i = Some b).
Proof.
  apply (complete_effects example_catalog 1 alice 700 answered_db).
  vm_compute. reflexivity.
Defined.

(** ** No request touches another user's assessment *)

Lemma user_mismatch_not_owned (assessment_id : Z) (user : User) (b : Assessment) :
  a_user_id b <> u_id user -> owned_by assessment_id (u_id user) b = false.
Proof.
  intros H. unfold owned_by. rewrite (bool_decide_eq_false_2 _ H).
  apply andb_false_r.
Qed.

(** X17: whatever a request does, an assessment that does not belong to its
    caller is afterwards in the same place of the table with the same
    content; requests without a caller (register, login) touch no assessment
    at all. *)
Theorem other_users_assessments_untouched (pwd_hash : string -> string)
    (catalog : list Category) (req : Request) (now : Z) (db : Db)
    (i : nat) (b : Assessment) :
  assessments db !! i = Some b ->
  (forall caller, request_caller req = Some caller -> a_user_id b <> u_id caller) ->
  assessments (handle pwd_hash catalog req now db) !! i = Some b.
Proof.
  intros Hi Hc. destruct req as [ud|email pw|pi u|aid rs u|aid u]; cbn [handle].
  - unfold register. destruct (query_user_by_email _ _); exact Hi.
  - unfold login. destruct (query_user_by_email _ _) as [x|]; [|exact Hi].
    destruct (bool_decide _); exact Hi.
  - unfold create_assessment. cbn [snd add_event assessments].
    rewrite lookup_app_l; [exact Hi|]. apply lookup_lt_Some in Hi. exact Hi.
  - specialize (Hc u eq_refl). unfold update_responses.
    destruct (query_assessment _ _ _); [|exact Hi]. cbn [snd assessments].
    apply update_first_lookup_other; [exact Hi|].
    apply user_mismatch_not_owned, Hc.
  - specialize (Hc u eq_refl). unfold complete_assessment.
    destruct (query_assessment _ _ _); [|exact Hi].
    destruct (compute_scores _ _); [|exact Hi].
    cbn [snd add_event assessments].
    apply update_first_lookup_other; [exact Hi|].
    apply user_mismatch_not_owned, Hc.
Qed.

(** Bob tries to complete Alice's assessment. *)
Lemma other_users_assessments_untouched_witness :
  assessments (handle example_hash example_catalog (ReqComplete 1 bob) 800
                      answered_db) !! 0%nat
  = assessments answered_db !! 0%nat.
Proof.
  destruct (assessments answered_db !! 0%nat) as [b|] eqn:E; [|discriminate].
  apply (other_users_assessments_untouched example_hash example_catalog
           (ReqComplete 1 bob) 800 answered_db 0 b E).
  intros caller [= <-]. vm_compute in E. injection E as <-. discriminate.
Defined.

(** ** Invariants of every reachable store *)

Lemma update_first_Forall {X : Type} (P : X -> Prop) (p : X -> bool) (f : X -> X)
    (l : list X) :
  (forall x, P x -> P (f x)) -> Forall P l -> Forall P (update_first p f l).
Proof.
  intros Hf H. induction H as [|x l Hx Hl IH]; cbn [update_first]; [constructor|].
  destruct (p x); constructor; auto.
Qed.

Lemma add_event_invariant (ev_type : string) (uid aid : option Z) (data : option Q)
    (now : Z) (db : Db) :
  store_invariant db -> store_invariant (add_event ev_type uid aid data now db).
Proof.
  intros (Hu & Ha & He & Hm & Hr). unfold store_invariant.
  cbn [add_event users assessments analytics_events].
  repeat split; try assumption.
  apply NoDup_snoc_fresh; [exact He|]. cbn [e_id]. apply next_id_fresh.
Qed.

Lemma register_invariant (pwd_hash : string -> string) (user_data : UserCreate)
    (now : Z) (db : Db) :
  store_invariant db -> store_invariant (snd (register pwd_hash user_data now db)).
Proof.
  intros H. unfold register.
  destruct (query_user_by_email db (uc_email user_data)) eqn:Q; [exact H|].
  cbn [snd]. apply add_event_invariant.
  destruct H as (Hu & Ha & He & Hm & Hr). unfold store_invariant.
  cbn [users assessments analytics_events]. repeat split; try assumption.
  - apply NoDup_snoc_fresh; [exact Hu|]. cbn [u_id]. apply next_id_fresh.
  - rewrite map_app. apply NoDup_app. split; [exact Hm|].
    split; [|apply NoDup_singleton].
    intros k Hk Hk'. cbn in Hk'. apply list_elem_of_singleton in Hk'. subst k.
    apply (query_user_by_email_None db _ Q). exact Hk.
Qed.

Lemma login_invariant (pwd_hash : string -> string) (email password : string)
    (now : Z) (db : Db) :
  store_invariant db -> store_invariant (snd (login pwd_hash email password now db)).
Proof.
  intros H. unfold login.
  destruct (query_user_by_email db email) as [u|]; [|exact H].
  destruct (bool_decide _); [|exact H].
  cbn [snd]. apply add_event_invariant.
  destruct H as (Hu & Ha & He & Hm & Hr). unfold store_invariant.
  cbn [users assessments analytics_events]. repeat split; try assumption.
  - rewrite (update_first_map _ _ u_id); [exact Hu|reflexivity].
  - rewrite (update_first_map _ _ u_email); [exact Hm|reflexivity].
Qed.

Lemma create_assessment_invariant (program_info : ProgramInfo) (user : User)
    (now : Z) (db : Db) :
  store_invariant db ->
  store_invariant (snd (create_assessment program_info user now db)).
Proof.
  intros H. unfold create_assessment. cbn [snd]. apply add_event_invariant.
  destruct H as (Hu & Ha & He & Hm & Hr). unfold store_invariant.
  cbn [users assessments analytics_events]. repeat split; try assumption.
  - apply NoDup_snoc_fresh; [exact Ha|]. cbn [a_id]. apply next_id_fresh.
  - apply Forall_app. split; [exact Hr|]. constructor; [|constructor].
    right. cbn. repeat split; reflexivity.
Qed.

Lemma update_responses_invariant (assessment_id : Z)
    (responses : gmap string (gmap string ResponseEntry)) (user : User) (now : Z)
    (db : Db) :
  store_invariant db ->
  store_invariant (snd (update_responses assessment_id responses user now db)).
Proof.
  intros H. unfold update_responses.
  destruct (query_assessment db assessment_id (u_id user)); [|exact H].
  cbn [snd]. destruct H as (Hu & Ha & He & Hm & Hr). unfold store_invariant.
  cbn [users assessments analytics_events]. repeat split; try assumption.
  - rewrite (update_first_map _ _ a_id); [exact Ha|].
    apply (save_responses_keeps a_id); reflexivity.
  - apply update_first_Forall; [|exact Hr]. intros x Hx.
    unfold save_responses. destruct (truthy_responses _); exact Hx.
Qed.

Lemma complete_assessment_invariant (catalog : list Category) (assessment_id : Z)
    (user : User) (now : Z) (db : Db) :
  store_invariant db ->
  store_invariant (snd (complete_assessment catalog assessment_id user now db)).
Proof.
  intros H. unfold complete_assessment.
  destruct (query_assessment db assessment_id (u_id user)); [|exact H].
  destruct (compute_scores _ _); [|exact H].
  cbn [snd]. apply add_event_invariant.
  destruct H as (Hu & Ha & He & Hm & Hr). unfold store_invariant.
  cbn [users assessments analytics_events]. repeat split; try assumption.
  - rewrite (update_first_map _ _ a_id); [exact Ha|reflexivity].
  - apply update_first_Forall; [|exact Hr]. intros x _.
    left. cbn. repeat split; eauto.
Qed.

Lemma handle_invariant (pwd_hash : string -> string) (catalog : list Category)
    (req : Request) (now : Z) (db : Db) :
  store_invariant db -> store_invariant (handle pwd_hash catalog req now db).
Proof.
  destruct req; cbn [handle].
  - apply register_invariant.
  - apply login_invariant.
  - apply create_assessment_invariant.
  - apply update_responses_invariant.
  - apply complete_assessment_invariant.
Qed.

Lemma run_invariant (pwd_hash : string -> string) (catalog : list Category)
    (reqs : list (Request * Z)) (db : Db) :
  store_invariant db -> store_invariant (run pwd_hash catalog reqs db).
Proof.
  unfold run. revert db. induction reqs as [|rn reqs IH]; intros db H; [exact H|].
  cbn [fold_left]. apply IH, handle_invariant, H.
Qed.

Lemma empty_db_invariant : store_invariant empty_db.
Proof.
  unfold store_invariant, empty_db. cbn.
  repeat split; constructor.
Qed.

(** X18: in every store reached from the empty one by any sequence of
    register, login, create, update and complete requests, user ids,
    assessment ids, event ids and user emails are unique, and an assessment
    has its results (overall score, breakdown, recommendations, completion
    time) exactly when its status is "completed", and otherwise is
    "in_progress" with none of them. *)
Theorem reachable_store_invariant (pwd_hash : string -> string)
    (catalog : list Category) (reqs : list (Request * Z)) :
  store_invariant (run pwd_hash catalog reqs empty_db).
Proof. apply run_invariant, empty_db_invariant. Qed.

(** ** The analytics summary *)

Lemma sum_scores_from (l : list Assessment) (acc : Q) :
  Forall score_in_range l ->
  acc <= fold_left (fun acc a => acc + default 0 (a_overall_score a)) l acc
      <= acc + 100 * inject_Z (Z.of_nat (length l)).
Proof.
  intros H. revert acc. induction H as [|a l Ha _ IH]; intros acc.
  - cbn [fold_left length]. change (inject_Z (Z.of_nat 0)) with 0. split; lra.
  - cbn [fold_left length]. rewrite Nat2Z.inj_succ, <- Z.add_1_r, inject_Z_plus.
    change (inject_Z 1) with 1.
    assert (B : 0 <= default 0 (a_overall_score a) <= 100).
    { unfold score_in_range in Ha. destruct (a_overall_score a) as [s|]; cbn.
      - apply Ha. reflexivity.
      - split; lra. }
    destruct (IH (acc + default 0 (a_overall_score a))) as [L U].
    split; lra.
Qed.

Lemma filter_length_le {X : Type} (p : X -> bool) (l : list X) :
  (length (List.filter p l) <= length l)%nat.
Proof.
  induction l as [|x l IH]; cbn; [lia|]. destruct (p x); cbn; lia.
Qed.

Lemma py_div_nonzero (a b : Q) : ~ b == 0 -> py_div a b = Ok (a / b).
Proof.
  intros H. unfold py_div. destruct (Qeq_bool b 0) eqn:E; [|reflexivity].
  apply Qeq_bool_eq in E. contradiction.
Qed.

Lemma inject_Z_of_nat_pos (n : nat) : (0 < n)%nat -> 0 < inject_Z (Z.of_nat n).
Proof.
  intros H. change 0 with (inject_Z 0). rewrite <- Zlt_Qlt. lia.
Qed.

(** The summary in full: it never raises, and its fields are bounded. *)
Lemma get_analytics_summary_ok (db : Db) :
  exists s, get_analytics_summary db = Ok s
    /\ as_total_users s = Z.of_nat (length (users db))
    /\ as_total_assessments s = Z.of_nat (length (assessments db))
    /\ (0 <= as_completed_assessments s <= as_total_assessments s)%Z
    /\ 0 <= as_completion_rate s <= 100
    /\ (assessments db = [] ->
        as_completion_rate s = 0 /\ as_average_score s == 0)
    /\ (Forall score_in_range (assessments db) ->
        0 <= as_average_score s <= 100).
Proof.
  unfold get_analytics_summary.
  set (completed := List.filter is_completed (assessments db)).
  set (n := length completed). set (t := length (assessments db)).
  assert (Hn : (n <= t)%nat) by apply filter_length_le.
  assert (Havg : exists avg,
            match completed with
            | [] => Ok 0
            | _ :: _ => py_div (sum_scores completed) (inject_Z (Z.of_nat n))
            end = Ok avg
            /\ (completed = [] -> avg = 0)
            /\ (Forall score_in_range completed -> 0 <= avg <= 100)).
  { destruct completed as [|a l] eqn:Ec.
    - exists 0. repeat split; lra.
    - assert (P : 0 < inject_Z (Z.of_nat n))
        by (apply inject_Z_of_nat_pos; unfold n; cbn; lia).
      rewrite py_div_nonzero by lra. eexists. split; [reflexivity|].
      split; [discriminate|]. intros Hs.
      destruct (sum_scores_from (a :: l) 0 Hs) as [L U]. fold (sum_scores (a :: l)) in L, U.
      fold n in U. split.
      + apply Qle_shift_div_l; [exact P|lra].
      + apply Qle_shift_div_r; [exact P|lra]. }
  destruct Havg as (avg & Eavg & Havg0 & Havg).
  fold n. rewrite Eavg. cbn [mbind result_bind].
  assert (Hrate : exists rate,
            (if (0 <? Z.of_nat t)%Z
             then q ← py_div (inject_Z (Z.of_nat n)) (inject_Z (Z.of_nat t));
                  Ok (py_round (q * 100) 1)
             else Ok 0) = Ok rate
            /\ 0 <= rate <= 100 /\ (t = 0%nat -> rate = 0)).
  { destruct (0 <? Z.of_nat t)%Z eqn:Pt.
    - apply Z.ltb_lt in Pt.
      assert (P : 0 < inject_Z (Z.of_nat t)) by (apply inject_Z_of_nat_pos; lia).
      rewrite py_div_nonzero by lra. cbn [mbind result_bind].
      eexists. split; [reflexivity|]. split; [|lia].
      apply py_round_1_bounds.
      assert (Ln : 0 <= inject_Z (Z.of_nat n))
        by (change 0 with (inject_Z 0); rewrite <- Zle_Qle; lia).
      assert (Un : inject_Z (Z.of_nat n) <= inject_Z (Z.of_nat t))
        by (rewrite <- Zle_Qle; lia).
      apply ratio_bounds; [split; assumption|exact P].
    - exists 0. repeat split; try lra. }
  destruct Hrate as (rate & Erate & Hrate & Hrate0).
  fold t. rewrite Erate. cbn [mbind result_bind].
  eexists. split; [reflexivity|].
  cbn [as_total_users as_total_assessments as_completed_assessments
       as_completion_rate as_average_score].
  split; [reflexivity|]. split; [reflexivity|]. split; [lia|].
  split; [exact Hrate|]. split.
  - intros He. split.
    + apply Hrate0. unfold t. rewrite He. reflexivity.
    + rewrite Havg0; [reflexivity|]. unfold completed. rewrite He. reflexivity.
  - intros Hs. apply py_round_1_bounds, Havg.
    unfold completed. rewrite Forall_forall in Hs |- *.
    intros a Ha. apply Hs. apply list_elem_of_In in Ha.
    apply filter_In in Ha as [Ha _]. apply list_elem_of_In, Ha.
Qed.

(** X19: the analytics summary never fails, not even on an empty store,
    where the completion rate and the average score are 0 instead of a
    division error; it counts all users and all assessments of all users; the
    number of completed assessments is at most the number of assessments and
    the completion rate is within [0, 100]. *)
Theorem analytics_summary_bounds (db : Db) :
  exists s, get_analytics_summary db = Ok s
    /\ as_total_users s = Z.of_nat (length (users db))
    /\ as_total_assessments s = Z.of_nat (length (assessments db))
    /\ (0 <= as_completed_assessments s <= as_total_assessments s)%Z
    /\ 0 <= as_completion_rate s <= 100
    /\ (assessments db = [] ->
        as_completion_rate s = 0 /\ as_average_score s == 0).
Proof.
  destruct (get_analytics_summary_ok db) as (s & E & Hu & Ht & Hc & Hr & He & _).
  exists s. auto 10.
Qed.

(** The empty store. *)
Lemma analytics_summary_bounds_witness :
  exists s, get_analytics_summary empty_db = Ok s
    /\ as_completion_rate s = 0 /\ as_average_score s == 0.
Proof.
  destruct (analytics_summary_bounds empty_db) as (s & E & _ & _ & _ & _ & H).
  exists s. split; [exact E|]. apply H. reflexivity.
Defined.

(** ** Nothing is deleted or re-attributed *)

Lemma handle_keeps_rows (pwd_hash : string -> string) (catalog : list Category)
    (req : Request) (now : Z) (db : Db) :
  map user_identity (users db)
    `prefix_of` map user_identity (users (handle pwd_hash catalog req now db))
  /\ map assessment_identity (assessments db)
    `prefix_of` map assessment_identity
                  (assessments (handle pwd_hash catalog req now db))
  /\ analytics_events db
    `prefix_of` analytics_events (handle pwd_hash catalog req now db).
Proof.
  destruct req as [ud|email pw|pi u|aid rs u|aid u]; cbn [handle].
  - unfold register. destruct (query_user_by_email _ _); [repeat split; reflexivity|].
    cbn [snd add_event users assessments analytics_events].
    split; [rewrite map_app; apply prefix_app_r; reflexivity|].
    split; [reflexivity|apply prefix_app_r; reflexivity].
  - unfold login. destruct (query_user_by_email _ _) as [x|];
      [|repeat split; reflexivity].
    destruct (bool_decide _); [|repeat split; reflexivity].
    cbn [snd add_event users assessments analytics_events].
    split; [rewrite (update_first_map _ _ user_identity); reflexivity|].
    split; [reflexivity|apply prefix_app_r; reflexivity].
  - unfold create_assessment. cbn [snd add_event users assessments analytics_events].
    split; [reflexivity|].
    split; [rewrite map_app|]; apply prefix_app_r; reflexivity.
  - unfold update_responses. destruct (query_assessment _ _ _);
      [|repeat split; reflexivity].
    cbn [snd users assessments analytics_events]. split; [reflexivity|].
    split; [|reflexivity].
    rewrite (update_first_map _ _ assessment_identity); [reflexivity|].
    apply (save_responses_keeps assessment_identity); reflexivity.
  - unfold complete_assessment. destruct (query_assessment _ _ _);
      [|repeat split; reflexivity].
    destruct (compute_scores _ _); [|repeat split; reflexivity].
    cbn [snd add_event users assessments analytics_events]. split; [reflexivity|].
    split; [rewrite (update_first_map _ _ assessment_identity); reflexivity|].
    apply prefix_app_r; reflexivity.
Qed.

(** X21: no sequence of requests deletes, reorders or re-attributes
    anything: afterwards the user table starts with the same users (id,
    email, password hash, name, organization, creation time), the assessment
    table with the same assessments (id, owner, program data, creation time),
    and the analytics log with the same events, unchanged. *)
Theorem nothing_is_deleted (pwd_hash : string -> string)
    (catalog : list Category) (reqs : list (Request * Z)) (db : Db) :
  map user_identity (users db)
    `prefix_of` map user_identity (users (run pwd_hash catalog reqs db))
  /\ map assessment_identity (assessments db)
    `prefix_of` map assessment_identity
                  (assessments (run pwd_hash catalog reqs db))
  /\ analytics_events db
    `prefix_of` analytics_events (run pwd_hash catalog reqs db).
Proof.
  unfold run. revert db. induction reqs as [|rn reqs IH]; intros db.
  - repeat split; reflexivity.
  - cbn [fold_left].
    destruct (handle_keeps_rows pwd_hash catalog (fst rn) (snd rn) db)
      as (Hu & Ha & He).
    destruct (IH (handle pwd_hash catalog (fst rn) (snd rn) db)) as (Iu & Ia & Ie).
    split; [etrans; eassumption|]. split; etrans; eassumption.
Qed.

(** ** Listing *)

Lemma sorted_desc_map {X Y : Type} (f : X -> Y) (key : Y -> Q) (l : list X) :
  sorted_desc (fun x => key (f x)) l -> sorted_desc key (map f l).
Proof.
  unfold sorted_desc. induction 1 as [|x l Hs IH Hx]; cbn [map]; constructor.
  - exact IH.
  - apply Forall_map. exact Hx.
Qed.

(** X22: the listing of a user holds exactly the assessments of that user,
    one summary each, and no assessment of anybody else, by non-increasing
    time of last update. *)
Theorem listing_is_own_and_sorted (user : User) (db : Db) :
  (forall s, s ∈ list_assessments user db
             <-> exists a, a ∈ assessments db /\ a_user_id a = u_id user
                           /\ s = summary_of a)
  /\ Permutation (map s_id (list_assessments user db))
       (map a_id (List.filter (fun a => bool_decide (a_user_id a = u_id user))
                              (assessments db)))
  /\ sorted_desc (fun s => inject_Z (s_updated_at s)) (list_assessments user db).
Proof.
  unfold list_assessments.
  set (mine := List.filter _ (assessments db)).
  pose proof (sort_reverse_perm (fun a => inject_Z (a_updated_at a)) mine) as Hp.
  split; [|split].
  - intros s. rewrite list_elem_of_In, in_map_iff. split.
    + intros (a & <- & Ha). apply (Permutation_in _ Hp) in Ha.
      apply filter_In in Ha as [Ha Hu]. apply bool_decide_eq_true in Hu.
      exists a. split; [apply list_elem_of_In, Ha|]. auto.
    + intros (a & Ha & Hu & ->). exists a. split; [reflexivity|].
      apply (Permutation_in _ (Permutation_sym Hp)).
      apply filter_In. split; [apply list_elem_of_In, Ha|].
      apply bool_decide_eq_true_2, Hu.
  - rewrite map_map. change (fun x => s_id (summary_of x)) with a_id.
    apply Permutation_map, Hp.
  - apply (sorted_desc_map summary_of (fun s => inject_Z (s_updated_at s))).
    apply (sort_reverse_sorted (fun a => inject_Z (a_updated_at a))).
Qed.

(** ** Counts in the analytics summary *)

Lemma get_analytics_summary_counts (db : Db) (s : AnalyticsSummary) :
  get_analytics_summary db = Ok s ->
  as_total_assessments s = Z.of_nat (length (assessments db))
  /\ as_completed_assessments s
     = Z.of_nat (length (List.filter is_completed (assessments db))).
Proof.
  unfold get_analytics_summary.
  destruct (match List.filter is_completed (assessments db) with
            | [] => Ok 0
            | _ :: _ => _
            end) as [avg|e]; cbn [mbind result_bind]; [|discriminate].
  destruct (if (0 <? Z.of_nat (length (assessments db)))%Z then _ else Ok 0)
    as [rate|e]; cbn [mbind result_bind]; [|discriminate].
  intros [= <-]. split; reflexivity.
Qed.

Lemma update_first_length {X : Type} (p : X -> bool) (f : X -> X) (l : list X) :
  length (update_first p f l) = length l.
Proof.
  induction l as [|x l IH]; cbn [update_first length]; [reflexivity|].
  destruct (p x); cbn [length]; congruence.
Qed.

Lemma completed_count_after (p : Assessment -> bool) (f : Assessment -> Assessment)
    (l : list Assessment) (a : Assessment) :
  find p l = Some a -> is_completed (f a) = true ->
  length (List.filter is_completed (update_first p f l))
  = (length (List.filter is_completed l)
     + (if is_completed a then 0 else 1))%nat.
Proof.
  intros F Hf. induction l as [|x l IH]; cbn [find] in F; [discriminate|].
  cbn [update_first]. destruct (p x) eqn:E.
  - injection F as ->. cbn [List.filter]. rewrite Hf.
    destruct (is_completed a); cbn [length]; lia.
  - cbn [List.filter]. specialize (IH F).
    destruct (is_completed x); cbn [length]; lia.
Qed.

(** X23: in the analytics summary, a successful completion leaves the number
    of assessments unchanged and raises the number of completed assessments by
    one when the assessment was not yet completed, and by nothing when it
    was: completing again does not inflate the completion rate. *)
Theorem completion_counted_once (catalog : list Category) (assessment_id : Z)
    (user : User) (now : Z) (db db1 : Db) (r : CompleteResult) :
  complete_assessment catalog assessment_id user now db = (Ok r, db1) ->
  exists a s s1,
    query_assessment db assessment_id (u_id user) = Some a
    /\ get_analytics_summary db = Ok s
    /\ get_analytics_summary db1 = Ok s1
    /\ as_total_users s1 = as_total_users s
    /\ as_total_assessments s1 = as_total_assessments s
    /\ as_completed_assessments s1
       = (as_completed_assessments s + (if is_completed a then 0 else 1))%Z.
Proof.
  intros H.
  destruct (get_analytics_summary_ok db) as (s & E & Hu & _).
  destruct (get_analytics_summary_ok db1) as (s1 & E1 & Hu1 & _).
  destruct (get_analytics_summary_counts db s E) as [Ht Hc].
  destruct (get_analytics_summary_counts db1 s1 E1) as [Ht1 Hc1].
  unfold complete_assessment in H.
  destruct (query_assessment db assessment_id (u_id user)) as [a|] eqn:Q;
    [|discriminate].
  destruct (compute_scores catalog (default ∅ (a_responses a))) as [r0|e];
    [|discriminate].
  injection H as -> <-.
  exists a, s, s1. split; [reflexivity|]. split; [exact E|]. split; [exact E1|].
  cbn [add_event users assessments] in Hu1, Ht1, Hc1.
  split; [congruence|]. split.
  - rewrite Ht1, Ht, update_first_length. reflexivity.
  - rewrite Hc1, Hc.
    unfold query_assessment in Q.
    rewrite (completed_count_after _ (set_completed r now) _ a Q eq_refl).
    destruct (is_completed a); lia.
Qed.

(** Alice's first completion, and her second one. *)
Lemma completion_counted_once_witness :
  (exists a s s1,
     query_assessment answered_db 1 (u_id alice) = Some a
     /\ get_analytics_summary answered_db = Ok s
     /\ get_analytics_summary (snd first_completion) = Ok s1
     /\ as_total_users s1 = as_total_users s
     /\ as_total_assessments s1 = as_total_assessments s
     /\ as_completed_assessments s1
        = (as_completed_assessments s + (if is_completed a then 0 else 1))%Z)
  /\ (exists a s s1,
     query_assessment (snd first_completion) 1 (u_id alice) = Some a
     /\ get_analytics_summary (snd first_completion) = Ok s
     /\ get_analytics_summary
          (snd (complete_assessment example_catalog 1 alice 800
                  (snd first_completion))) = Ok s1
     /\ as_total_users s1 = as_total_users s
     /\ as_total_assessments s1 = as_total_assessments s
     /\ as_completed_assessments s1
        = (as_completed_assessments s + (if is_completed a then 0 else 1))%Z).
Proof.
  split.
  - apply (completion_counted_once example_catalog 1 alice 700 answered_db
             (snd first_completion) example_result).
    vm_compute. reflexivity.
  - apply (completion_counted_once example_catalog 1 alice 800
             (snd first_completion) _ example_result).
    vm_compute. reflexivity.
Defined.

(** * Properties of the binary64 embedding *)

Module Binary64Facts.

Import Binary64.

(** ** Comparisons *)

Lemma SFcompare_antisym (x y : float) :
  SFcompare y x = option_map CompOpp (SFcompare x y).
Proof.
  destruct x as [s1|s1| |s1 m1 e1], y as [s2|s2| |s2 m2 e2];
    try destruct s1; try destruct s2; try reflexivity; cbn;
    change (Pos.compare_cont Eq m1 m2) with (m1 ?= m2)%positive;
    change (Pos.compare_cont Eq m2 m1) with (m2 ?= m1)%positive;
    rewrite (Z.compare_antisym e1 e2), (Pos.compare_antisym m1 m2);
    destruct (e1 ?= e2)%Z; cbn; try reflexivity;
    destruct (m1 ?= m2)%positive; reflexivity.
Qed.

(** [x < y] excludes [y <= x]. *)
Lemma flt_not_fle (x y : float) : flt x y = true -> fle y x = false.
Proof.
  unfold flt, fle, SFltb, SFleb. rewrite (SFcompare_antisym x y).
  destruct (SFcompare x y) as [[]|]; cbn; congruence.
Qed.


Lemma SFcompare_not_nan (x y : float) :
  is_nan x = false -> is_nan y = false -> is_Some (SFcompare x y).
Proof.
  destruct x as [s1|s1| |s1 m1 e1], y as [s2|s2| |s2 m2 e2]; cbn;
    intros; try discriminate; eauto.
Qed.


Lemma fle_not_nan (x y : float) :
  fle x y = true -> is_nan x = false /\ is_nan y = false.
Proof.
  destruct x as [s1|s1| |s1 m1 e1], y as [s2|s2| |s2 m2 e2]; cbn;
    intros; try discriminate; auto.
Qed.


(** The comparison of two numbers is the lexicographic comparison of their
    places. *)
Lemma SFcompare_ord (x y : float) :
  is_nan x = false -> is_nan y = false ->
  exists c, SFcompare x y = Some c
    /\ (c = Lt <-> lt3 (ord x) (ord y))
    /\ (c = Eq <-> ord x = ord y)
    /\ (c = Gt <-> lt3 (ord y) (ord x)).
Proof.
  intros Hx Hy. unfold lt3.
  destruct x as [s1|s1| |s1 m1 e1], y as [s2|s2| |s2 m2 e2];
    try discriminate; try destruct s1; try destruct s2; cbn;
    try (eexists; split; [reflexivity|];
         repeat split; intros H; (discriminate || reflexivity || lia
                                  || (exfalso; injection H; lia) || fail)).
  - (* both negative *)
    eexists. split; [reflexivity|].
    change (Pos.compare_cont Eq m1 m2) with (m1 ?= m2)%positive.
    destruct (Z.compare_spec e1 e2) as [E|L|G];
      [destruct (Pos.compare_spec m1 m2) as [E'|L'|G']; cbn|..];
      repeat split; intros H;
        (discriminate || reflexivity || lia || congruence
         || (exfalso; injection H; lia) || (f_equal; lia) || idtac).
  - (* both positive *)
    eexists. split; [reflexivity|].
    change (Pos.compare_cont Eq m1 m2) with (m1 ?= m2)%positive.
    destruct (Z.compare_spec e1 e2) as [E|L|G];
      [destruct (Pos.compare_spec m1 m2) as [E'|L'|G']; cbn|..];
      repeat split; intros H;
        (discriminate || reflexivity || lia || congruence
         || (exfalso; injection H; lia) || (f_equal; lia) || idtac).
Qed.



Lemma fle_ord (x y : float) :
  is_nan x = false -> is_nan y = false ->
  (fle x y = true <-> lt3 (ord x) (ord y) \/ ord x = ord y).
Proof.
  intros Hx Hy. destruct (SFcompare_ord x y Hx Hy) as (c & E & HL & HE & _).
  unfold fle, SFleb. rewrite E. rewrite <- HL, <- HE.
  destruct c; split; intros H; try congruence; auto; destruct H; congruence.
Qed.

Ltac lex_order :=
  repeat match goal with
         | p : (Z * Z * Z)%type |- _ => destruct p as [[? ?] ?]
         end;
  unfold lt3 in *; cbn [fst snd] in *;
  repeat match goal with
         | H : (_, _) = (_, _) |- _ => injection H as ? ?
         end;
  try (intuition (subst; first [lia | f_equal; lia | idtac])).

Lemma lt3_trans (a b c : Z * Z * Z) : lt3 a b -> lt3 b c -> lt3 a c.
Proof. intros. lex_order. Qed.


(** [<=] is transitive. *)
Lemma fle_trans (x y z : float) :
  fle x y = true -> fle y z = true -> fle x z = true.
Proof.
  intros H1 H2.
  destruct (fle_not_nan _ _ H1) as [Nx Ny]. destruct (fle_not_nan _ _ H2) as [_ Nz].
  apply (fle_ord x y Nx Ny) in H1. apply (fle_ord y z Ny Nz) in H2.
  apply (fle_ord x z Nx Nz).
  destruct H1 as [H1|H1], H2 as [H2|H2].
  - left. eapply lt3_trans; eassumption.
  - left. rewrite <- H2. exact H1.
  - left. rewrite H1. exact H2.
  - right. congruence.
Qed.




(** Above a threshold or strictly below it. *)
Lemma fle_false_flt (t x : float) :
  is_nan t = false -> is_nan x = false -> fle t x = false -> flt x t = true.
Proof.
  intros Nt Nx. unfold flt, fle, SFltb, SFleb. rewrite (SFcompare_antisym t x).
  destruct (SFcompare_not_nan t x Nt Nx) as [c E]. rewrite E.
  destruct c; cbn; congruence.
Qed.

(** ** The loops compute the rules *)

(** One iteration of the inner loop. *)
Lemma b64_score_question_step (responses : gmap string (gmap string ResponseEntry))
    (cat_id : string) (m a : float) (q : Question) :
  score_question (get_cat_responses responses cat_id) (m, a) q
  = (fadd m (max_points q),
     match attained_points (stored_answer responses cat_id (q_id q)) q with
     | Some p => fadd a p
     | None => a
     end).
Proof.
  unfold score_question, attained_points, max_points. rewrite get_answer_stored.
  destruct (stored_answer responses cat_id (q_id q)) as [s|]; cbn [default from_option id].
  - destruct (decide (s = "yes")); [reflexivity|].
    destruct (decide (s = "partial")); reflexivity.
  - destruct (decide ("no" = "yes")); [discriminate|].
    destruct (decide ("no" = "partial")); [discriminate|]. reflexivity.
Qed.

(** The inner loop accumulates the maximum and, for the questions answered
    "yes" or "partial", the attained points. *)
Lemma b64_score_questions_from (responses : gmap string (gmap string ResponseEntry))
    (cat_id : string) (qs : list Question) (m a : float) :
  fold_left (score_question (get_cat_responses responses cat_id)) qs (m, a)
  = (fold_left fadd (map max_points qs) m,
     fold_left fadd
       (omap (fun q => attained_points (stored_answer responses cat_id (q_id q)) q)
             qs) a).
Proof.
  revert m a. induction qs as [|q qs IH]; intros m a; [reflexivity|].
  cbn [fold_left map omap list_omap]. rewrite b64_score_question_step, IH.
  destruct (attained_points _ q); reflexivity.
Qed.

(** A divisor that is greater than 0 is not 0. *)
Lemma flt_0_nonzero (x : float) : flt (of_Z 0) x = true -> feq x (of_Z 0) = false.
Proof. destruct x as [s|s| |s m e]; try destruct s; cbn; congruence. Qed.

Lemma b64_raw_pct_of_ok (a m : float) :
  raw_pct_of a m
  = Ok (if flt (of_Z 0) m then fmul (fdiv a m) (of_Z 100) else of_Z 0).
Proof.
  unfold raw_pct_of, py_div. destruct (flt (of_Z 0) m) eqn:E; [|reflexivity].
  rewrite (flt_0_nonzero m E). reflexivity.
Qed.

Lemma b64_category_raw_pct_ok (responses : gmap string (gmap string ResponseEntry))
    (c : Category) :
  category_raw_pct responses c = Ok (raw_percentage responses c).
Proof.
  unfold category_raw_pct, score_questions. rewrite b64_score_questions_from.
  apply b64_raw_pct_of_ok.
Qed.

Lemma b64_score_category_ok (responses : gmap string (gmap string ResponseEntry))
    (st : ScoreState) (c : Category) :
  score_category responses st c
  = Ok {| category_scores := write_entry responses (category_scores st) c;
          total_weighted_score :=
            fadd (total_weighted_score st)
                 (fmul (raw_percentage responses c) (c_weight c));
          total_weight := fadd (total_weight st) (c_weight c) |}.
Proof. unfold score_category. rewrite b64_category_raw_pct_ok. reflexivity. Qed.

Lemma b64_score_categories_from (responses : gmap string (gmap string ResponseEntry))
    (catalog : list Category) (st : ScoreState) :
  for_each (score_category responses) catalog st
  = Ok {| category_scores :=
            fold_left (write_entry responses) catalog (category_scores st);
          total_weighted_score :=
            fold_left fadd
              (map (fun c => fmul (raw_percentage responses c) (c_weight c)) catalog)
              (total_weighted_score st);
          total_weight :=
            fold_left fadd (map c_weight catalog) (total_weight st) |}.
Proof.
  revert st. induction catalog as [|c catalog IH]; intros st.
  - destruct st. reflexivity.
  - cbn [for_each]. rewrite b64_score_category_ok. cbn [mbind result_bind].
    rewrite IH. reflexivity.
Qed.

Lemma b64_overall_of_ok (st : ScoreState) :
  overall_of st
  = Ok (if flt (of_Z 0) (total_weight st)
        then py_round (fdiv (total_weighted_score st) (total_weight st)) 1
        else of_Z 0).
Proof.
  unfold overall_of, py_div. destruct (flt (of_Z 0) (total_weight st)) eqn:E;
    [|reflexivity].
  rewrite (flt_0_nonzero _ E). reflexivity.
Qed.

(** The complete operation never raises, and its result has this form. *)
Lemma b64_compute_scores_ok (catalog : list Category)
    (responses : gmap string (gmap string ResponseEntry)) :
  compute_scores catalog responses
  = Ok {| res_overall_score := overall catalog responses;
          res_category_scores := fold_left (write_entry responses) catalog ∅;
          res_recommendations :=
            take 10 (sort_reverse rec_priority_score
                       (candidate_recommendations catalog responses));
          res_readiness := readiness_of (overall catalog responses) |}.
Proof.
  unfold compute_scores. rewrite b64_score_categories_from. cbn [mbind result_bind].
  rewrite b64_overall_of_ok. reflexivity.
Qed.

(** ** The breakdown *)

Lemma b64_write_entries_other (responses : gmap string (gmap string ResponseEntry))
    (catalog : list Category) (m : gmap string CategoryScore) (k : string) :
  k ∉ map c_id catalog ->
  fold_left (write_entry responses) catalog m !! k = m !! k.
Proof.
  revert m. induction catalog as [|c catalog IH]; intros m Hk; [reflexivity|].
  cbn [fold_left map] in *. rewrite not_elem_of_cons in Hk. destruct Hk as [Hne Hk].
  rewrite (IH _ Hk). unfold write_entry. apply lookup_insert_ne. congruence.
Qed.

(** Every category has an entry, and every entry is the one of a category
    with that id. *)
Lemma write_entries_domain (responses : gmap string (gmap string ResponseEntry))
    (catalog : list Category) (m : gmap string CategoryScore) :
  (forall c, c ∈ catalog ->
     is_Some (fold_left (write_entry responses) catalog m !! c_id c))
  /\ (forall k cs, fold_left (write_entry responses) catalog m !! k = Some cs ->
        m !! k = Some cs
        \/ exists c, c ∈ catalog /\ c_id c = k /\ cs = category_entry responses c).
Proof.
  revert m. induction catalog as [|c catalog IH]; intros m; cbn [fold_left].
  - split; [intros c Hc; inversion Hc|]. intros k cs H. left. exact H.
  - destruct (IH (write_entry responses m c)) as [D E]. split.
    + intros c' Hc'. apply elem_of_cons in Hc' as [->|Hc']; [|apply D, Hc'].
      destruct (decide (c_id c ∈ map c_id catalog)) as [Hin|Hout].
      * apply list_elem_of_In, in_map_iff in Hin as (c2 & E2 & H2).
        rewrite <- E2. apply D, list_elem_of_In, H2.
      * rewrite (b64_write_entries_other _ _ _ _ Hout). unfold write_entry.
        rewrite lookup_insert_eq. eauto.
    + intros k cs H. destruct (E k cs H) as [H'|(c' & Hc' & Hk & Hcs)].
      * unfold write_entry in H'.
        destruct (decide (c_id c = k)) as [Ek|Nk].
        -- rewrite Ek, lookup_insert_eq in H'. injection H' as <-.
           right. exists c. split; [apply list_elem_of_here|]. auto.
        -- rewrite lookup_insert_ne in H' by exact Nk. left. exact H'.
      * right. exists c'. split; [apply list_elem_of_further, Hc'|]. auto.
Qed.

Lemma b64_write_entries_lookup (responses : gmap string (gmap string ResponseEntry))
    (catalog : list Category) (m : gmap string CategoryScore) (c : Category) :
  NoDup (map c_id catalog) -> c ∈ catalog ->
  fold_left (write_entry responses) catalog m !! c_id c
  = Some (category_entry responses c).
Proof.
  revert m. induction catalog as [|c0 catalog IH]; intros m Hnd Hc.
  - inversion Hc.
  - cbn [fold_left map] in *. apply NoDup_cons in Hnd as [Hfresh Hnd].
    apply elem_of_cons in Hc as [->|Hc].
    + rewrite (b64_write_entries_other _ _ _ _ Hfresh).
      unfold write_entry. apply lookup_insert_eq.
    + apply IH; assumption.
Qed.

Lemma b64_write_entries_size (responses : gmap string (gmap string ResponseEntry))
    (catalog : list Category) (m : gmap string CategoryScore) :
  NoDup (map c_id catalog) ->
  (forall c, c ∈ catalog -> m !! c_id c = None) ->
  size (fold_left (write_entry responses) catalog m)
  = (size m + length catalog)%nat.
Proof.
  revert m. induction catalog as [|c0 catalog IH]; intros m Hnd Hm.
  - cbn. lia.
  - cbn [fold_left map length] in *. apply NoDup_cons in Hnd as [Hfresh Hnd].
    rewrite IH; [|exact Hnd|].
    + unfold write_entry. rewrite map_size_insert_None; [lia|].
      apply Hm, list_elem_of_here.
    + intros c Hc. unfold write_entry. rewrite lookup_insert_ne.
      * apply Hm, list_elem_of_further, Hc.
      * intros Heq. apply Hfresh. rewrite Heq.
        apply (list_elem_of_fmap_2 c_id), Hc.
Qed.

(** ** Labels *)

Lemma threshold_rule (hi lo x : float) (top mid low : string) :
  is_nan hi = false -> top <> mid -> top <> low -> mid <> low ->
  let label := if fle hi x then top else if fle lo x then mid else low in
  (label = top <-> fle hi x = true)
  /\ (label = mid <-> fle lo x = true /\ flt x hi = true)
  /\ (label = low <-> fle lo x = false)
  \/ (fle hi x = true /\ fle lo x = false).
Proof.
  intros Nhi N1 N2 N3 label. unfold label.
  destruct (fle hi x) eqn:H; destruct (fle lo x) eqn:L.
  - left. split; [tauto|]. split; [|split; intros; congruence].
    split; [congruence|]. intros [_ F]. apply flt_not_fle in F. congruence.
  - right. auto.
  - assert (F : flt x hi = true).
    { destruct (fle_not_nan _ _ L) as [_ Nx]. apply fle_false_flt; assumption. }
    left. split; [split; congruence|]. split; [tauto|]. split; congruence.
  - left. split; [split; congruence|]. split; [|tauto].
    split; [congruence|]. intros [? _]. congruence.
Qed.

(** 50 <= 75, so a number that is at least 75 is at least 50. *)
Lemma fle_75_50 (x : float) : fle (of_Z 75) x = true -> fle (of_Z 50) x = true.
Proof. apply fle_trans. reflexivity. Qed.

Lemma b64_status_of_rule (raw : float) : status_rule raw (status_of raw).
Proof.
  destruct (threshold_rule (of_Z 75) (of_Z 50) raw "strong" "adequate" "weak")
    as [H|[H L]]; try discriminate; try reflexivity.
  - exact H.
  - apply fle_75_50 in H. congruence.
Qed.

Lemma b64_readiness_of_rule (overall_score : float) :
  readiness_rule overall_score (readiness_of overall_score).
Proof.
  destruct (threshold_rule (of_Z 75) (of_Z 50) overall_score
              "ready" "promising" "needs_work")
    as [H|[H L]]; try discriminate; try reflexivity.
  - exact H.
  - apply fle_75_50 in H. congruence.
Qed.

Lemma compute_scores_rules (catalog : list Category)
    (responses : gmap string (gmap string ResponseEntry)) :
  exists r, compute_scores catalog responses = Ok r
    /\ scoring_rules catalog responses r.
Proof.
  eexists. split; [apply b64_compute_scores_ok|].
  unfold scoring_rules. cbn [res_overall_score res_readiness res_category_scores].
  destruct (write_entries_domain responses catalog ∅) as [D E].
  split; [reflexivity|]. split; [apply b64_readiness_of_rule|].
  split; [intros c _; apply b64_category_raw_pct_ok|]. split; [exact D|].
  intros cid cs H. destruct (E cid cs H) as [H'|(c & Hc & Hid & ->)].
  - rewrite lookup_empty in H'. discriminate.
  - exists c. repeat (split; [assumption || reflexivity|]).
    apply b64_status_of_rule.
Qed.

(** ** Sorting: [sort_reverse] is the stable descending sort *)

Section FloatSorting.

Context {A : Type} (key : A -> float).














End FloatSorting.

(** ** Rounding never turns a number into NaN *)










(** ** Sums, products and quotients of non-negative numbers *)








(** ** The recommendation loops produce the candidates in encounter order *)








(** ** All questions answered "yes" *)




(** ** Scores of a catalog with non-negative weights and impacts *)





(** ** No points at all *)

Lemma no_points_attained (responses : gmap string (gmap string ResponseEntry))
    (c : Category) :
  Forall (fun q => effective_answer responses c q <> "yes"
                   /\ effective_answer responses c q <> "partial")
         (c_questions c) ->
  category_attained responses c = of_Z 0.
Proof.
  unfold category_attained. intros H.
  assert (E : omap (fun q => attained_points
                               (stored_answer responses (c_id c) (q_id q)) q)
                   (c_questions c) = []).
  { induction H as [|q qs [Ny Np] _ IH]; [reflexivity|].
    cbn [omap list_omap]. rewrite IH. unfold effective_answer in Ny, Np.
    unfold attained_points.
    destruct (stored_answer responses (c_id c) (q_id q)) as [a|]; [|reflexivity].
    cbn in Ny, Np.
    destruct (decide (a = "yes")); [contradiction|].
    destruct (decide (a = "partial")); [contradiction|]. reflexivity. }
  rewrite E. reflexivity.
Qed.

(** 0 divided by a number greater than 0, times 100, is 0. *)
Lemma zero_ratio (m : float) :
  (if flt (of_Z 0) m then fmul (fdiv (of_Z 0) m) (of_Z 100) else of_Z 0) = of_Z 0.
Proof. destruct m as [s|s| |s m e]; try destruct s; reflexivity. Qed.

Lemma no_points_raw_percentage (responses : gmap string (gmap string ResponseEntry))
    (c : Category) :
  Forall (fun q => effective_answer responses c q <> "yes"
                   /\ effective_answer responses c q <> "partial")
         (c_questions c) ->
  raw_percentage responses c = of_Z 0.
Proof.
  intros H. unfold raw_percentage. rewrite (no_points_attained responses c H).
  apply zero_ratio.
Qed.

(** Adding 0 x weight, for finite weights, leaves the sum at 0. *)
Lemma weighted_sum_zero_finite (raw : Category -> float) (catalog : list Category) :
  Forall (fun c => raw c = of_Z 0 /\ is_finite (c_weight c) = true) catalog ->
  weighted_sum raw catalog = of_Z 0.
Proof.
  unfold weighted_sum, fsum. induction 1 as [|c catalog [E F] _ IH]; [reflexivity|].
  cbn [map fold_left]. rewrite E.
  assert (Z : fadd (of_Z 0) (fmul (of_Z 0) (c_weight c)) = of_Z 0).
  { destruct (c_weight c) as [s|s| |s m e]; try discriminate; destruct s; reflexivity. }
  rewrite Z. exact IH.
Qed.

Lemma zero_quotient_rounded (w : float) :
  (if flt (of_Z 0) w then py_round (fdiv (of_Z 0) w) 1 else of_Z 0) = of_Z 0.
Proof. destruct w as [s|s| |s m e]; try destruct s; reflexivity. Qed.

End Binary64Facts.

(** * Scoring, ranking and bounds in binary64 arithmetic *)

(** C1 (as amended): in binary64 arithmetic, with every sum accumulated in
    catalog order, the complete operation never raises and computes each
    category's raw percentage as attained / maximum x 100, where the maximum
    is the sum of 2 x impact (impact defaulting to 1.0) and the attained
    points are the sum of 2 x impact over the questions answered "yes" and
    1 x impact over those answered "partial", the raw percentage being 0
    unless the maximum is greater than 0; the overall score is the sum of raw
    percentage x weight divided by the sum of the weights, rounded to one
    decimal, and 0 unless the total weight is greater than 0; the status is
    "strong" iff raw >= 75, "adequate" iff 50 <= raw < 75, else "weak", and
    the readiness is "ready" iff overall >= 75, "promising" iff
    50 <= overall < 75, else "needs_work", on the computed floats. *)
Theorem complete_scoring_rules (catalog : list Binary64.Category)
    (responses : gmap string (gmap string ResponseEntry)) :
  exists r, Binary64.compute_scores catalog responses = Ok r
    /\ Binary64.scoring_rules catalog responses r.
Proof. apply Binary64Facts.compute_scores_rules. Qed.

(** C1 (as stated) fails, for catalogs with positive weights and impacts.
    With two questions of impact 0.7 answered "yes" and "partial" the
    attained points are exactly 3/4 of the maximum, a raw percentage of 75
    and so the status "strong"; the code computes 74.99999999999999 and the
    status "adequate".  With eight such questions, one answered "yes" and one
    "partial", the overall score is 18.75 rounded to one decimal, 18.8; the
    code returns the float 18.7. *)
Lemma stated_scoring_rules_fail :
  (exists r cs,
     Binary64.compute_scores rounding_catalog example_responses = Ok r
     /\ Binary64.res_category_scores r !! "1" = Some cs
     /\ Binary64.cs_status cs = "adequate"
     /\ Forall (fun c => Binary64.category_raw_pct example_responses c
                         = Ok (S754_finite false 5277655813324799 (-46)))
               rounding_catalog
     /\ Forall (fun c => stated_raw_pct example_responses c == 75
                         /\ ~ status_rule (stated_raw_pct example_responses c)
                                          (Binary64.cs_status cs))
               (exact_catalog rounding_catalog))
  /\ (exists r,
        Binary64.compute_scores tie_catalog example_responses = Ok r
        /\ Binary64.res_overall_score r = Binary64.decimal 187 1
        /\ stated_overall (exact_catalog tie_catalog) example_responses == 188 # 10
        /\ Binary64.value (Binary64.res_overall_score r)
           < stated_overall (exact_catalog tie_catalog) example_responses).
Proof.
  split.
  - eexists. eexists. split; [vm_compute; reflexivity|].
    split; [vm_compute; reflexivity|]. split; [reflexivity|].
    split; [repeat constructor|].
    unfold exact_catalog, rounding_catalog, governance. cbn [map].
    apply List.Forall_cons; [|apply List.Forall_nil].
    match goal with
    | |- stated_raw_pct ?r ?c == 75 /\ _ =>
        assert (E : stated_raw_pct r c == 75) by (vm_compute; reflexivity)
    end.
    split; [exact E|]. cbn [Binary64.cs_status]. intros (H & _).
    rewrite E in H.
    assert (F : "adequate" = "strong") by (apply H; discriminate).
    discriminate.
  - eexists. split; [vm_compute; reflexivity|].
    repeat split; vm_compute; reflexivity.
Qed.



(** The two priority scores are equal as rationals but not as floats: the
    second product is the float above the first, and the question of
    category B is recommended before that of category A. *)
Example tied_priority_example :
  exists r, Binary64.compute_scores tied_priority_catalog ∅ = Ok r
    /\ Binary64.rec_question <$> Binary64.res_recommendations r
       = ["Question of B"; "Question of A"]
    /\ Binary64.rec_priority_score <$> Binary64.res_recommendations r
       = [S754_finite false 5404319552844596 (-53);
          S754_finite false 5404319552844595 (-53)].
Proof. eexists. repeat split; vm_compute; reflexivity. Qed.




(** The overall score has no upper bound either.  With the weight 1.7e308
    and the question answered "yes" the raw percentage is 100.0, the
    weighted score 100.0 x 1.7e308 is infinite, and so is the overall score. *)
Example heavy_weight_overall_infinite :
  Binary64.nonneg_catalog heavy_catalog = true
  /\ Binary64.finite_catalog heavy_catalog = true
  /\ Forall (fun c => Binary64.category_raw_pct yes_responses c
                      = Ok (Binary64.of_Z 100))
            heavy_catalog
  /\ exists r, Binary64.compute_scores heavy_catalog yes_responses = Ok r
       /\ Binary64.res_overall_score r = S754_infinity false
       /\ Binary64.fle (Binary64.res_overall_score r) (Binary64.of_Z 100) = false
       /\ Binary64.res_readiness r = "ready".
Proof.
  split; [reflexivity|]. split; [reflexivity|]. split.
  - repeat constructor.
  - eexists. split; [vm_compute; reflexivity|]. repeat split.
Qed.




(** The worked example in binary64: a catalog whose numbers are small
    integers is scored without rounding. *)
Example all_yes_example :
  exists r,
    Binary64.compute_scores
      (governance [question64 "q1" "Is there a charter?" (Some (Binary64.of_Z 1));
                   question64 "q2" "Is there a budget?" None])
      all_yes_responses = Ok r
    /\ Binary64.res_overall_score r = Binary64.of_Z 100
    /\ Binary64.res_readiness r = "ready".
Proof. eexists. repeat split; vm_compute; reflexivity. Qed.

(** X5: when the category ids of the catalog are distinct, the breakdown of
    the complete operation holds exactly one entry per category, under the
    category's id: its name, its raw percentage rounded to one decimal, its
    weighted score rounded to two decimals, and its status. *)
Theorem breakdown_one_entry_per_category (catalog : list Binary64.Category)
    (responses : gmap string (gmap string ResponseEntry)) :
  NoDup (map Binary64.c_id catalog) ->
  exists r, Binary64.compute_scores catalog responses = Ok r
    /\ (forall c, c ∈ catalog ->
          Binary64.res_category_scores r !! Binary64.c_id c
          = Some (Binary64.category_entry responses c))
    /\ size (Binary64.res_category_scores r) = length catalog.
Proof.
  intros Hnd. eexists. split; [apply Binary64Facts.b64_compute_scores_ok|].
  cbn [Binary64.res_category_scores]. split.
  - intros c Hc. apply Binary64Facts.b64_write_entries_lookup; assumption.
  - rewrite Binary64Facts.b64_write_entries_size;
      [rewrite map_size_empty; reflexivity|exact Hnd|].
    intros c _. apply lookup_empty.
Qed.

Lemma breakdown_one_entry_per_category_witness :
  exists r, Binary64.compute_scores tied_priority_catalog no_responses = Ok r
    /\ (forall c, c ∈ tied_priority_catalog ->
          Binary64.res_category_scores r !! Binary64.c_id c
          = Some (Binary64.category_entry no_responses c))
    /\ size (Binary64.res_category_scores r) = length tied_priority_catalog.
Proof.
  apply (breakdown_one_entry_per_category tied_priority_catalog no_responses).
  cbn. repeat constructor; rewrite ?elem_of_cons, ?elem_of_nil; intros H;
    repeat destruct H as [H|H]; try discriminate; exact H.
Defined.

(** X27: in binary64, when no question is answered "yes" or "partial" and the
    category weights are finite, the overall score is 0.0 and the readiness
    "needs_work", and every category has the raw score 0.0 and the status
    "weak", whatever the impacts are. *)
Theorem no_points_scores_zero (catalog : list Binary64.Category)
    (responses : gmap string (gmap string ResponseEntry)) :
  Binary64.every_answer (fun a => a <> "yes" /\ a <> "partial") catalog responses ->
  Forall (fun c => Binary64.is_finite (Binary64.c_weight c) = true) catalog ->
  exists r, Binary64.compute_scores catalog responses = Ok r
    /\ Binary64.res_overall_score r = Binary64.of_Z 0
    /\ Binary64.res_readiness r = "needs_work"
    /\ (forall c, c ∈ catalog ->
          Binary64.category_raw_pct responses c = Ok (Binary64.of_Z 0))
    /\ (forall cid cs, Binary64.res_category_scores r !! cid = Some cs ->
          Binary64.cs_raw_score cs = Binary64.of_Z 0
          /\ Binary64.cs_status cs = "weak").
Proof.
  intros Hno Hfin. unfold Binary64.every_answer in Hno.
  assert (Hraw : forall c, c ∈ catalog ->
                   Binary64.raw_percentage responses c = Binary64.of_Z 0).
  { intros c Hc. apply Binary64Facts.no_points_raw_percentage.
    rewrite Forall_forall in Hno. apply (Hno c Hc). }
  assert (Ho : Binary64.overall catalog responses = Binary64.of_Z 0).
  { unfold Binary64.overall.
    rewrite (Binary64Facts.weighted_sum_zero_finite
               (Binary64.raw_percentage responses) catalog).
    - apply Binary64Facts.zero_quotient_rounded.
    - apply Forall_forall. intros c Hc. split; [apply Hraw, Hc|].
      rewrite Forall_forall in Hfin. apply (Hfin c Hc). }
  eexists. split; [apply Binary64Facts.b64_compute_scores_ok|].
  cbn [Binary64.res_overall_score Binary64.res_readiness
       Binary64.res_category_scores].
  rewrite Ho. split; [reflexivity|]. split; [reflexivity|]. split.
  - intros c Hc. rewrite Binary64Facts.b64_category_raw_pct_ok, (Hraw c Hc).
    reflexivity.
  - intros cid cs H.
    destruct (Binary64Facts.write_entries_domain responses catalog ∅) as [_ E].
    destruct (E cid cs H) as [H'|(c & Hc & _ & ->)].
    { rewrite lookup_empty in H'. discriminate. }
    cbn [Binary64.category_entry Binary64.cs_raw_score Binary64.cs_status].
    rewrite (Hraw c Hc). split; reflexivity.
Qed.

(** Nothing is answered for the two questions of impact 0.7. *)
Lemma no_points_scores_zero_witness :
  exists r, Binary64.compute_scores rounding_catalog ∅ = Ok r
    /\ Binary64.res_overall_score r = Binary64.of_Z 0
    /\ Binary64.res_readiness r = "needs_work"
    /\ (forall c, c ∈ rounding_catalog ->
          Binary64.category_raw_pct ∅ c = Ok (Binary64.of_Z 0))
    /\ (forall cid cs, Binary64.res_category_scores r !! cid = Some cs ->
          Binary64.cs_raw_score cs = Binary64.of_Z 0
          /\ Binary64.cs_status cs = "weak").
Proof.
  apply (no_points_scores_zero rounding_catalog ∅).
  - repeat constructor; discriminate.
  - repeat constructor.
Defined.


(** ** Binary64 arithmetic on examples

    The operations of the embedding on values whose Python results are
    known: 0.1 + 0.2 is 0.30000000000000004, 2.1 / 2.8 x 100 is
    74.99999999999999, [round(2.675, 2)] is 2.67, [round(0.125, 2)] is 0.12,
    [round(18.749999999999996, 1)] is 18.7, [round(-0.04, 1)] is -0.0, and
    2 x 1e308 is infinite. *)
Example binary64_examples :
  Binary64.fadd (Binary64.decimal 1 1) (Binary64.decimal 2 1)
  = S754_finite false 5404319552844596 (-54)
  /\ Binary64.decimal 3 1 = S754_finite false 5404319552844595 (-54)
  /\ Binary64.fmul (Binary64.fdiv (S754_finite false 4728779608739020 (-51))
                                  (Binary64.decimal 28 1)) (Binary64.of_Z 100)
     = S754_finite false 5277655813324799 (-46)
  /\ Binary64.py_round (Binary64.decimal 2675 3) 2 = Binary64.decimal 267 2
  /\ Binary64.py_round (Binary64.decimal 125 3) 2 = Binary64.decimal 12 2
  /\ Binary64.py_round (S754_finite false 5277655813324799 (-48)) 1
     = Binary64.decimal 187 1
  /\ Binary64.py_round (Binary64.fdiv (Binary64.of_Z (-4)) (Binary64.of_Z 100)) 1
     = S754_zero true
  /\ Binary64.fmul (Binary64.of_Z 2) (Binary64.of_Z (10 ^ 308))
     = S754_infinity false.
Proof. repeat split; vm_compute; reflexivity. Qed.
